(** * The Sprite file-system bridge (src/spriteFileSystem.ts)

    A shallow embedding of [SpriteFileSystemProvider]: every file-system
    operation is translated into shell commands sent through an injected
    command transport, and the textual replies are parsed back.

    JavaScript strings are embedded as [string]; a character stands for one
    code unit in the range 0..255.  [Uint8Array] values are lists of
    [Byte.byte]. *)

From Stdlib Require Import ZArith Ascii String List Lia ZifyNat.
From stdpp Require Import base option list gmap strings.

Local Open Scope string_scope.
Local Open Scope list_scope.

(** ** JavaScript string primitives used by the provider *)

Module Js.

(** The double quote character, [U+0022]. *)
Definition dquote : ascii := "034"%char.
Definition newline : ascii := "010"%char.

(** White space as matched by [String.prototype.trim] and by the regular
    expression class [\s], restricted to code units below 256: TAB, LF, VT,
    FF, CR, SPACE and NBSP. *)
Definition is_space (c : ascii) : bool :=
  let n := nat_of_ascii c in
  ((9 <=? n) && (n <=? 13) || (n =? 32) || (n =? 160))%nat.

Definition is_empty (s : string) : bool :=
  match s with EmptyString => true | String _ _ => false end.

Fixpoint trimStart (s : string) : string :=
  match s with
  | EmptyString => EmptyString
  | String c r => if is_space c then trimStart r else s
  end.

Fixpoint trimEnd (s : string) : string :=
  match s with
  | EmptyString => EmptyString
  | String c r =>
      let r' := trimEnd r in
      if is_empty r' && is_space c then EmptyString else String c r'
  end.

(** [s.trim()] *)
Definition trim (s : string) : string := trimEnd (trimStart s).

(** [s.replace(/\s/g, '')] *)
Fixpoint strip_spaces (s : string) : string :=
  match s with
  | EmptyString => EmptyString
  | String c r => if is_space c then strip_spaces r else String c (strip_spaces r)
  end.

(** [s.split(sep)] for a one-character separator.  The result is never
    empty: [''.split(sep)] is [['']]. *)
Fixpoint split (sep : ascii) (s : string) : list string :=
  match s with
  | EmptyString => [EmptyString]
  | String c r =>
      if Ascii.eqb c sep then EmptyString :: split sep r
      else match split sep r with
           | h :: t => String c h :: t
           | [] => [String c EmptyString]
           end
  end.

(** [s.endsWith(c)] for a one-character argument. *)
Fixpoint endsWith (s : string) (c : ascii) : bool :=
  match s with
  | EmptyString => false
  | String d EmptyString => Ascii.eqb d c
  | String _ r => endsWith r c
  end.

(** [s.slice(0, -1)] *)
Fixpoint slice_init (s : string) : string :=
  match s with
  | EmptyString => EmptyString
  | String _ EmptyString => EmptyString
  | String d r => String d (slice_init r)
  end.

(** [s.includes(sub)] *)
Fixpoint includes (s sub : string) : bool :=
  String.prefix sub s ||
  match s with
  | EmptyString => false
  | String _ r => includes r sub
  end.

(** [s.lastIndexOf(c)] for a one-character argument; [-1] when absent. *)
Fixpoint lastIndexOf (s : string) (c : ascii) : Z :=
  match s with
  | EmptyString => (-1)%Z
  | String d r =>
      let i := lastIndexOf r c in
      if (0 <=? i)%Z then (i + 1)%Z
      else if Ascii.eqb d c then 0%Z else (-1)%Z
  end.

(** [s.substring(0, n)]: a negative end index counts as [0]. *)
Definition substring0 (n : Z) (s : string) : string :=
  String.substring 0 (Z.to_nat n) s.

Definition is_digit (c : ascii) : bool :=
  let n := nat_of_ascii c in ((48 <=? n) && (n <=? 57))%nat.

Fixpoint digits_value (acc : Z) (s : string) : Z :=
  match s with
  | String c r =>
      if is_digit c then digits_value (10 * acc + Z.of_nat (nat_of_ascii c - 48))%Z r
      else acc
  | EmptyString => acc
  end.

Definition starts_with_digit (s : string) : bool :=
  match s with String c _ => is_digit c | EmptyString => false end.

(** [Number.MAX_SAFE_INTEGER]: up to it, every integer is a JavaScript
    number. *)
Definition MAX_SAFE_INTEGER : Z := 9007199254740991.

(** The JavaScript number nearest to the integer [z] (IEEE 754 binary64):
    the integer itself when it has at most 53 significant bits, and
    otherwise its 53 leading bits rounded to nearest, ties to even.  The
    range of the exponent is not modelled: no integer becomes [Infinity]. *)
Definition to_number (z : Z) : Z :=
  let a := Z.abs z in
  let e := (Z.log2 a - 52)%Z in
  if (e <=? 0)%Z then z
  else
    let q := Z.shiftr a e in
    let r := (a - Z.shiftl q e)%Z in
    let half := Z.shiftl 1 (e - 1) in
    let q' := if (half <? r)%Z || ((r =? half)%Z && Z.odd q) then (q + 1)%Z else q in
    (Z.sgn z * Z.shiftl q' e)%Z.

(** [parseInt(s, 10)]; [None] stands for [NaN].  The argument [None] is
    [undefined] (a missing field), which parses to [NaN].  The result is the
    number nearest to the integer that the digits denote. *)
Definition parseInt (s : option string) : option Z :=
  match s with
  | None => None
  | Some s =>
      match trimStart s with
      | String "-" r =>
          if starts_with_digit r then Some (to_number (- digits_value 0 r)) else None
      | String "+" r =>
          if starts_with_digit r then Some (to_number (digits_value 0 r)) else None
      | r => if starts_with_digit r then Some (to_number (digits_value 0 r)) else None
      end
  end.

(** [x * y] on numbers that hold integers. *)
Definition times (x y : Z) : Z := to_number (x * y).

(** [x || d] on numbers: [NaN] and [0] are falsy. *)
Definition num_or (x : option Z) (d : Z) : Z :=
  match x with
  | Some v => if (v =? 0)%Z then d else v
  | None => d
  end.

(** [s || d] on strings: the empty string is falsy. *)
Definition str_or (s d : string) : string := if is_empty s then d else s.

End Js.

(** ** Base64: [Buffer.toString('base64')] and [atob] *)

Module Base64.

(** Six bits, most significant first. *)
Inductive sextet := Sextet (b5 b4 b3 b2 b1 b0 : bool).

Definition sextet_val (s : sextet) : nat :=
  let 'Sextet b5 b4 b3 b2 b1 b0 := s in
  32 * Nat.b2n b5 + 16 * Nat.b2n b4 + 8 * Nat.b2n b3
  + 4 * Nat.b2n b2 + 2 * Nat.b2n b1 + Nat.b2n b0.

Definition sextet_of_nat (n : nat) : sextet :=
  Sextet (Nat.testbit n 5) (Nat.testbit n 4) (Nat.testbit n 3)
         (Nat.testbit n 2) (Nat.testbit n 1) (Nat.testbit n 0).

Definition alphabet : string :=
  "ABCDEFGHIJKLMNOPQRSTUVWXYZabcdefghijklmnopqrstuvwxyz0123456789+/".

Definition pad : ascii := "="%char.

Definition char_of (s : sextet) : ascii :=
  match String.get (sextet_val s) alphabet with
  | Some c => c
  | None => pad
  end.

Definition value_of (c : ascii) : option sextet :=
  let n := nat_of_ascii c in
  if ((65 <=? n) && (n <=? 90))%nat then Some (sextet_of_nat (n - 65))
  else if ((97 <=? n) && (n <=? 122))%nat then Some (sextet_of_nat (n - 97 + 26))
  else if ((48 <=? n) && (n <=? 57))%nat then Some (sextet_of_nat (n - 48 + 52))
  else if (n =? 43)%nat then Some (sextet_of_nat 62)
  else if (n =? 47)%nat then Some (sextet_of_nat 63)
  else None.

(** Regrouping of octets into sextets.  [Ascii b0 .. b7] lists the least
    significant bit first. *)
Definition hi6 (a : ascii) : sextet :=
  let 'Ascii a0 a1 a2 a3 a4 a5 a6 a7 := a in Sextet a7 a6 a5 a4 a3 a2.
Definition lo2_hi4 (a b : ascii) : sextet :=
  let 'Ascii a0 a1 _ _ _ _ _ _ := a in
  let 'Ascii _ _ _ _ b4 b5 b6 b7 := b in Sextet a1 a0 b7 b6 b5 b4.
Definition lo4_hi2 (b c : ascii) : sextet :=
  let 'Ascii b0 b1 b2 b3 _ _ _ _ := b in
  let 'Ascii _ _ _ _ _ _ c6 c7 := c in Sextet b3 b2 b1 b0 c7 c6.
Definition lo6 (c : ascii) : sextet :=
  let 'Ascii c0 c1 c2 c3 c4 c5 _ _ := c in Sextet c5 c4 c3 c2 c1 c0.

Definition octet1 (s0 s1 : sextet) : ascii :=
  let 'Sextet p5 p4 p3 p2 p1 p0 := s0 in
  let 'Sextet q5 q4 _ _ _ _ := s1 in Ascii q4 q5 p0 p1 p2 p3 p4 p5.
Definition octet2 (s1 s2 : sextet) : ascii :=
  let 'Sextet _ _ q3 q2 q1 q0 := s1 in
  let 'Sextet r5 r4 r3 r2 _ _ := s2 in Ascii r2 r3 r4 r5 q0 q1 q2 q3.
Definition octet3 (s2 s3 : sextet) : ascii :=
  let 'Sextet _ _ _ _ r1 r0 := s2 in
  let 'Sextet t5 t4 t3 t2 t1 t0 := s3 in Ascii t0 t1 t2 t3 t4 t5 r0 r1.

(** The sextets of a byte sequence, without padding. *)
Fixpoint sextets (l : list ascii) : list sextet :=
  match l with
  | a :: b :: c :: r =>
      hi6 a :: lo2_hi4 a b :: lo4_hi2 b c :: lo6 c :: sextets r
  | [a; b] => [hi6 a; lo2_hi4 a b; lo4_hi2 b zero]
  | [a] => [hi6 a; lo2_hi4 a zero]
  | [] => []
  end.

Definition padding (n : nat) : string :=
  match n mod 3 with
  | 1 => "=="
  | 2 => "="
  | _ => ""
  end.

(** [Buffer.from(bytes).toString('base64')]: RFC 4648 with padding. *)
Definition encode (l : list ascii) : string :=
  string_of_list_ascii (map char_of (sextets l)) +:+ padding (length l).

(** The octets of a sextet sequence; the bits left over at the end are
    discarded. *)
Fixpoint octets (l : list sextet) : list ascii :=
  match l with
  | s0 :: s1 :: s2 :: s3 :: r =>
      octet1 s0 s1 :: octet2 s1 s2 :: octet3 s2 s3 :: octets r
  | [s0; s1; s2] => [octet1 s0 s1; octet2 s1 s2]
  | [s0; s1] => [octet1 s0 s1]
  | _ => []
  end.

(** ASCII white space of the forgiving-base64 decoder: TAB, LF, FF, CR and
    SPACE. *)
Definition is_ascii_space (c : ascii) : bool :=
  let n := nat_of_ascii c in
  ((n =? 9) || (n =? 10) || (n =? 12) || (n =? 13) || (n =? 32))%nat.

(** The text is one or two [=] and nothing else. *)
Definition only_padding (l : list ascii) : bool :=
  match l with
  | [c] => Ascii.eqb c pad
  | [c; d] => Ascii.eqb c pad && Ascii.eqb d pad
  | _ => false
  end.

(** Removal of one or two trailing [=]. *)
Fixpoint strip_padding (l : list ascii) : list ascii :=
  match l with
  | [] => []
  | c :: r => if only_padding l then [] else c :: strip_padding r
  end.

(** [atob(data)], the forgiving-base64 decoder; [None] stands for the
    [InvalidCharacterError] it throws.  The result is a binary string. *)
Definition atob (data : string) : option string :=
  let d := filter (fun c => negb (is_ascii_space c)) (list_ascii_of_string data) in
  let d := if (length d mod 4 =? 0)%nat then strip_padding d else d in
  if (length d mod 4 =? 1)%nat then None
  else sx ← mapM value_of d; Some (string_of_list_ascii (octets sx)).

End Base64.

(** ** The provider's data *)

(** [vscode.FileType] *)
Inductive FileType := Unknown | File | Directory | SymbolicLink.

(** [vscode.FileChangeType] *)
Inductive FileChangeType := Changed | Created | Deleted.

(** [vscode.Uri], format [sprite://sprite-name/path/to/file]. *)
Record Uri := { scheme : string; authority : string; path : string }.

Definition uri_toString (u : Uri) : string :=
  scheme u +:+ "://" +:+ authority u +:+ path u.

(** [vscode.FileStat] *)
Record FileStat := { type : FileType; ctime : Z; mtime : Z; size : Z }.

(** [vscode.FileChangeEvent] *)
Record FileChangeEvent := { change : FileChangeType; uri : Uri }.

(** [vscode.FileSystemError], by the factory that built it. *)
Inductive FileSystemError :=
| FileNotFound (u : Uri)
| FileExists (u : Uri)
| NoPermissions (msg : string)
| Unavailable (msg : string).

(** What a JavaScript [throw] carries here: a [FileSystemError], or any other
    error, of which only the message is observed. *)
Inductive exn :=
| FsError (e : FileSystemError)
| JsError (message : string).

Definition error_message (e : exn) : string :=
  match e with
  | JsError m => m
  | FsError (NoPermissions m) | FsError (Unavailable m) => m
  | FsError (FileNotFound u) | FsError (FileExists u) => uri_toString u
  end.

(** The reply of the transport's [exec]. *)
Record ExecResult := { stdout : string; stderr : string }.

(** Outcome of a call: a value, or a thrown error. *)
Inductive Res (A : Type) :=
| Ok (a : A)
| Throw (e : exn).
Arguments Ok {A} a.
Arguments Throw {A} e.

(** [toStr]: the transport's output is taken as already decoded text. *)
Definition toStr (value : string) : string := value.

Definition in_dquotes (s : string) : string :=
  String Js.dquote (s +:+ String Js.dquote EmptyString).

(** *** The command lines, as the template literals build them *)

Definition cmd_stat (path : string) : string :=
  "stat -c '%F|%s|%Y|%X' " +:+ in_dquotes path
  +:+ " 2>/dev/null || echo " +:+ in_dquotes "NOTFOUND".

Definition cmd_ls (path : string) : string :=
  "ls -1ApL " +:+ in_dquotes path +:+ " 2>/dev/null".

Definition cmd_base64 (path : string) : string :=
  "base64 " +:+ in_dquotes path +:+ " 2>/dev/null".

Definition cmd_test_f (path : string) : string :=
  "test -f " +:+ in_dquotes path +:+ " && echo EXISTS".

Definition cmd_exists_or_not (path : string) : string :=
  "test -e " +:+ in_dquotes path +:+ " && echo EXISTS || echo NOTEXISTS".

Definition cmd_mkdir (path : string) : string :=
  "mkdir -p " +:+ in_dquotes path.

Definition cmd_write (base64Content path : string) : string :=
  "echo " +:+ in_dquotes base64Content +:+ " | base64 -d > " +:+ in_dquotes path.

Definition cmd_rm (flags path : string) : string :=
  "rm " +:+ flags +:+ " " +:+ in_dquotes path.

Definition cmd_test_e (path : string) : string :=
  "test -e " +:+ in_dquotes path +:+ " && echo EXISTS".

Definition cmd_mv (oldPath newPath : string) : string :=
  "mv " +:+ in_dquotes oldPath +:+ " " +:+ in_dquotes newPath.

(** [path.substring(0, path.lastIndexOf('/')) || '/'] *)
Definition parentDir (path : string) : string :=
  Js.str_or (Js.substring0 (Js.lastIndexOf path "/") path) "/".

(** [parseUri] *)
Definition parseUri (u : Uri) : string * string :=
  (authority u, Js.str_or (path u) "/").

(** The message of the [DOMException] thrown by [atob]. *)
Definition atob_message : string :=
  "The string to be decoded is not correctly encoded.".

(** *** Parsing of replies *)

Definition file_type_of (typeStr : string) : FileType :=
  if Js.includes typeStr "directory" then Directory
  else if Js.includes typeStr "regular" || Js.includes typeStr "file" then File
  else if Js.includes typeStr "symbolic link" then SymbolicLink
  else Unknown.

(** The body of [stat] after the sentinel test; [now] is [Date.now()]. *)
Definition parse_stat (output : string) (now : Z) : FileStat :=
  let parts := Js.split "|" output in
  let typeStr := nth 0 parts EmptyString in
  let size := Js.num_or (Js.parseInt (nth_error parts 1)) 0 in
  let mtime := Js.num_or (option_map (Js.times 1000) (Js.parseInt (nth_error parts 2))) now in
  let ctime := Js.num_or (option_map (Js.times 1000) (Js.parseInt (nth_error parts 3))) now in
  {| type := file_type_of typeStr; ctime := ctime; mtime := mtime; size := size |}.

(** One iteration of the loop of [readDirectory]. *)
Definition listing_step (entries : list (string * FileType)) (line : string)
  : list (string * FileType) :=
  if Js.is_empty line then entries
  else
    let '(name, type) :=
      if Js.endsWith line "/" then (Js.slice_init line, Directory)
      else if Js.endsWith line "@" then (Js.slice_init line, SymbolicLink)
      else if Js.endsWith line "*" then (Js.slice_init line, File)
      else if Js.endsWith line "|" || Js.endsWith line "=" then (Js.slice_init line, File)
      else (line, File) in
    if negb (Js.is_empty name) && negb (String.eqb name ".") && negb (String.eqb name "..")
    then entries ++ [(name, type)]
    else entries.

Definition parse_listing (output : string) : list (string * FileType) :=
  fold_left listing_step (Js.split Js.newline output) [].

(** The bytes of a binary string: [bytes[i] = binaryString.charCodeAt(i)]. *)
Definition bytes_of_binary (s : string) : list Byte.byte :=
  map byte_of_ascii (list_ascii_of_string s).

(** [Buffer.from(content).toString('base64')] *)
Definition to_base64 (content : list Byte.byte) : string :=
  Base64.encode (map ascii_of_byte content).

(** ** The provider's state and operations *)

Section Provider.

(** The state of the remote side, as the transport sees it. *)
Context {W : Type}.

(** A [Sprite] handle: its [exec] runs a command line on the remote side and
    either fails with a message or returns the captured output. *)
Record Sprite := { exec : string -> W -> (string + ExecResult) * W }.

(** [SpritesClient]: [client.sprite(name)] makes a handle. *)
Record SpritesClient := { sprite : string -> Sprite }.

(** The provider object together with its environment: the events fired
    through [_emitter], the remote state, the value of [Date.now()], and
    the list of the command lines sent so far, each with the name of the
    sprite it was sent to. *)
Record St := {
  client : option SpritesClient;
  spriteCache : gmap string Sprite;
  emitted : list (list FileChangeEvent);
  remote : W;
  now : Z;
  issued : list (string * string)
}.

Definition M (A : Type) : Type := St -> Res A * St.

Definition ret {A} (a : A) : M A := fun st => (Ok a, st).

Definition throw {A} (e : exn) : M A := fun st => (Throw e, st).

Definition bind {A B} (m : M A) (k : A -> M B) : M B :=
  fun st =>
    match m st with
    | (Ok a, st') => k a st'
    | (Throw e, st') => (Throw e, st')
    end.

Definition try_catch {A} (m : M A) (handler : exn -> M A) : M A :=
  fun st =>
    match m st with
    | (Ok a, st') => (Ok a, st')
    | (Throw e, st') => handler e st'
    end.

Notation "x <~ m ;; k" := (bind m (fun x => k))
  (at level 100, m at next level, right associativity).
Notation "m >>> k" := (bind m (fun _ => k))
  (at level 100, k at level 200, right associativity).

(** [if (error instanceof vscode.FileSystemError) throw error;
     throw vscode.FileSystemError.Unavailable(error.message)] *)
Definition rethrow_fs {A} (error : exn) : M A :=
  match error with
  | FsError _ => throw error
  | JsError _ => throw (FsError (Unavailable (error_message error)))
  end.

(** [throw vscode.FileSystemError.Unavailable(error.message)] *)
Definition rethrow_unavailable {A} (error : exn) : M A :=
  throw (FsError (Unavailable (error_message error))).

(** The provider as constructed: no client, an empty cache, no event fired
    yet; [w] is the remote state and [t] the value of [Date.now()]. *)
Definition fresh (w : W) (t : Z) : St :=
  {| client := None; spriteCache := ∅; emitted := []; remote := w; now := t;
     issued := [] |}.

(** [setClient] *)
Definition setClient (c : SpritesClient) : M unit :=
  fun st =>
    (Ok tt, {| client := Some c; spriteCache := ∅; emitted := emitted st;
               remote := remote st; now := now st; issued := issued st |}).

(** [getSprite] *)
Definition getSprite (spriteName : string) : M Sprite :=
  fun st =>
    match client st with
    | None => (Throw (FsError (Unavailable "Not connected to Sprites API")), st)
    | Some c =>
        match spriteCache st !! spriteName with
        | Some sp => (Ok sp, st)
        | None =>
            let sp := sprite c spriteName in
            (Ok sp, {| client := client st;
                       spriteCache := <[spriteName := sp]> (spriteCache st);
                       emitted := emitted st; remote := remote st;
                       now := now st; issued := issued st |})
        end
    end.

(** [await sprite.exec(command)]: the command line is recorded, the remote
    state advances, and a transport failure is thrown as an error. *)
Definition run (spriteName : string) (sp : Sprite) (command : string) : M ExecResult :=
  fun st =>
    let '(reply, w) := exec sp command (remote st) in
    let st' := {| client := client st; spriteCache := spriteCache st;
                  emitted := emitted st; remote := w; now := now st;
                  issued := issued st ++ [(spriteName, command)] |} in
    match reply with
    | inl message => (Throw (JsError message), st')
    | inr result => (Ok result, st')
    end.

(** [this._emitter.fire(events)] *)
Definition fire (events : list FileChangeEvent) : M unit :=
  fun st =>
    (Ok tt, {| client := client st; spriteCache := spriteCache st;
               emitted := emitted st ++ [events]; remote := remote st;
               now := now st; issued := issued st |}).

(** [Date.now()] *)
Definition date_now : M Z := fun st => (Ok (now st), st).

(** [watch]: file watching is not implemented, the disposable does nothing. *)
Definition watch (_uri : Uri) : M unit := ret tt.

Definition stat (u : Uri) : M FileStat :=
  let '(spriteName, path) := parseUri u in
  sp <~ getSprite spriteName ;;
  try_catch
    (result <~ run spriteName sp (cmd_stat path) ;;
     let output := Js.trim (toStr (stdout result)) in
     if String.eqb output "NOTFOUND" || Js.is_empty output
     then throw (FsError (FileNotFound u))
     else t <~ date_now ;; ret (parse_stat output t))
    rethrow_fs.

Definition readDirectory (u : Uri) : M (list (string * FileType)) :=
  let '(spriteName, path) := parseUri u in
  sp <~ getSprite spriteName ;;
  try_catch
    (result <~ run spriteName sp (cmd_ls path) ;;
     let output := Js.trim (toStr (stdout result)) in
     if Js.is_empty output then ret []
     else ret (parse_listing output))
    rethrow_unavailable.

Definition readFile (u : Uri) : M (list Byte.byte) :=
  let '(spriteName, path) := parseUri u in
  sp <~ getSprite spriteName ;;
  try_catch
    (result <~ run spriteName sp (cmd_base64 path) ;;
     let base64Content := Js.strip_spaces (toStr (stdout result)) in
     if Js.is_empty base64Content
     then
       checkResult <~ run spriteName sp (cmd_test_f path) ;;
       if String.eqb (Js.trim (toStr (stdout checkResult))) "EXISTS"
       then ret []
       else throw (FsError (FileNotFound u))
     else
       match Base64.atob base64Content with
       | None => throw (JsError atob_message)
       | Some binaryString => ret (bytes_of_binary binaryString)
       end)
    rethrow_fs.

(** [options] of [writeFile] *)
Record WriteOptions := { create : bool; overwrite : bool }.

Definition writeFile (u : Uri) (content : list Byte.byte) (options : WriteOptions)
  : M unit :=
  let '(spriteName, path) := parseUri u in
  sp <~ getSprite spriteName ;;
  try_catch
    (existsResult <~ run spriteName sp (cmd_exists_or_not path) ;;
     let exists_ := String.eqb (Js.trim (toStr (stdout existsResult))) "EXISTS" in
     if exists_ && negb (overwrite options)
     then throw (FsError (FileExists u))
     else if negb exists_ && negb (create options)
     then throw (FsError (FileNotFound u))
     else
       run spriteName sp (cmd_mkdir (parentDir path)) >>>
       let base64Content := to_base64 content in
       run spriteName sp (cmd_write base64Content path) >>>
       fire [ {| change := if exists_ then Changed else Created; uri := u |} ])
    rethrow_fs.

Definition createDirectory (u : Uri) : M unit :=
  let '(spriteName, path) := parseUri u in
  sp <~ getSprite spriteName ;;
  try_catch
    (result <~ run spriteName sp (cmd_mkdir path) ;;
     if negb (Js.is_empty (stderr result)) && Js.includes (toStr (stderr result)) "error"
     then throw (JsError (toStr (stderr result)))
     else fire [ {| change := Created; uri := u |} ])
    rethrow_unavailable.

(** [delete]; the argument is [options.recursive]. *)
Definition delete (u : Uri) (recursive : bool) : M unit :=
  let '(spriteName, path) := parseUri u in
  sp <~ getSprite spriteName ;;
  try_catch
    (let flags := if recursive then "-rf" else "-f" in
     run spriteName sp (cmd_rm flags path) >>>
     fire [ {| change := Deleted; uri := u |} ])
    rethrow_unavailable.

(** [rename]; the last argument is [options.overwrite]. *)
Definition rename (oldUri newUri : Uri) (overwrite : bool) : M unit :=
  let '(oldSprite, oldPath) := parseUri oldUri in
  let '(newSprite, newPath) := parseUri newUri in
  if negb (String.eqb oldSprite newSprite)
  then throw (FsError (NoPermissions "Cannot move files between different Sprites"))
  else
    sp <~ getSprite oldSprite ;;
    try_catch
      ((if negb overwrite
        then
          existsResult <~ run oldSprite sp (cmd_test_e newPath) ;;
          if String.eqb (Js.trim (toStr (stdout existsResult))) "EXISTS"
          then throw (FsError (FileExists newUri))
          else ret tt
        else ret tt) >>>
       run oldSprite sp (cmd_mv oldPath newPath) >>>
       fire [ {| change := Deleted; uri := oldUri |};
              {| change := Created; uri := newUri |} ])
      rethrow_fs.

End Provider.

Arguments Sprite : clear implicits.
Arguments SpritesClient : clear implicits.
Arguments St : clear implicits.
Arguments M : clear implicits.

(** The handle [getSprite] hands out in a state: the cached one, or a new one
    from the client; none when no client is set. *)
Definition resolve {W} (st : St W) (spriteName : string) : option (Sprite W) :=
  match client st with
  | None => None
  | Some c => Some (default (sprite c spriteName) (spriteCache st !! spriteName))
  end.

(** What a call did between the states [st] and [st']: it sent exactly the
    command lines [commands], in this order, left the remote side in the
    state [w] and fired exactly the event batches [events]; the handles and
    the clock are as before. *)
Definition effects {W} (st st' : St W) (commands : list (string * string))
    (w : W) (events : list (list FileChangeEvent)) : Prop :=
  issued st' = issued st ++ commands
  ∧ remote st' = w
  ∧ emitted st' = emitted st ++ events
  ∧ (∀ n, resolve st' n = resolve st n)
  ∧ now st' = now st.

(** ** The shell's reading of a double-quoted argument

    Modelled from the spec: the remote shell, which is not part of the
    sources.  The provider places every path between double quotes, and
    [dq_read] is the shell's side of that contract (POSIX, Shell Command
    Language, 2.2.3): inside double quotes a double quote ends the argument,
    a dollar sign or a backquote starts an expansion, and a backslash keeps
    its special meaning only before one of these, a backslash or a
    newline. *)

Module Shell.

Definition is_special (c : ascii) : bool :=
  Ascii.eqb c Js.dquote || Ascii.eqb c "$" || Ascii.eqb c "`" || Ascii.eqb c "\".

(** A string that holds none of the four special characters. *)
Fixpoint plain (s : string) : bool :=
  match s with
  | EmptyString => true
  | String c r => negb (is_special c) && plain r
  end.

Definition cons_fst (c : ascii) (x : string * string) : string * string :=
  (String c (fst x), snd x).

(** [dq_read s], for the text [s] that follows an opening double quote,
    yields the argument the shell reads and the text after the closing
    quote.  It yields [None] when the text is not a literal argument: it
    starts an expansion or never closes the quote. *)
Fixpoint dq_read (s : string) : option (string * string) :=
  match s with
  | EmptyString => None
  | String c r =>
      if Ascii.eqb c Js.dquote then Some (EmptyString, r)
      else if Ascii.eqb c "$" || Ascii.eqb c "`" then None
      else if Ascii.eqb c "\" then
        match r with
        | EmptyString => None
        | String d r' =>
            if is_special d then cons_fst d <$> dq_read r'
            else if Ascii.eqb d Js.newline then dq_read r'
            else cons_fst c <$> (cons_fst d <$> dq_read r')
        end
      else cons_fst c <$> dq_read r
  end.

Fixpoint strip_prefix (pre s : string) : option string :=
  match pre with
  | EmptyString => Some s
  | String c pre' =>
      match s with
      | String d s' => if Ascii.eqb c d then strip_prefix pre' s' else None
      | EmptyString => None
      end
  end.

(** The double-quoted argument that follows [pre] in [command]. *)
Definition argument_after (pre command : string) : option (string * string) :=
  r ← strip_prefix (pre +:+ String Js.dquote EmptyString) command; dq_read r.

End Shell.

(** Where the translators interpolate a path: the command line, the text
    before the opening quote, the interpolated path and the text after the
    closing quote.  [p] and [q] are the paths of the locators, [content] the
    encoded content of [writeFile] and [flags] the flags of [delete]. *)
Definition interpolations (p q content flags : string)
  : list (string * string * string * string) :=
  [ (cmd_stat p, "stat -c '%F|%s|%Y|%X' ", p,
      " 2>/dev/null || echo " +:+ in_dquotes "NOTFOUND");
    (cmd_ls p, "ls -1ApL ", p, " 2>/dev/null");
    (cmd_base64 p, "base64 ", p, " 2>/dev/null");
    (cmd_test_f p, "test -f ", p, " && echo EXISTS");
    (cmd_exists_or_not p, "test -e ", p, " && echo EXISTS || echo NOTEXISTS");
    (cmd_mkdir (parentDir p), "mkdir -p ", parentDir p, "");
    (cmd_write content p, "echo " +:+ in_dquotes content +:+ " | base64 -d > ", p, "");
    (cmd_mkdir p, "mkdir -p ", p, "");
    (cmd_rm flags p, "rm " +:+ flags +:+ " ", p, "");
    (cmd_test_e q, "test -e ", q, " && echo EXISTS");
    (cmd_mv p q, "mv ", p, " " +:+ in_dquotes q);
    (cmd_mv p q, "mv " +:+ in_dquotes p +:+ " ", q, "") ].

(** The path is placed as it is between the quotes. *)
Definition verbatim (i : string * string * string * string) : Prop :=
  let '(command, pre, arg, suf) := i in
  command = pre +:+ in_dquotes arg +:+ suf.

(** The shell reads the quoted argument back as the path, and the rest of the
    command line is the one the translator wrote. *)
Definition read_back (i : string * string * string * string) : Prop :=
  let '(command, pre, arg, suf) := i in
  Shell.argument_after pre command = Some (arg, suf).

(** The command lines of the table. *)
Definition command_lines (p q content flags : string) : list string :=
  map (fun i => fst (fst (fst i))) (interpolations p q content flags).

(** Every command line sent between the states [st] and [st'] is one of
    [allowed]. *)
Definition sends_only {W} (st st' : St W) (allowed : list string) : Prop :=
  ∃ l, issued st' = issued st ++ l ∧ Forall (fun c => snd c ∈ allowed) l.

(** ** A model of the remote side

    Modelled from the spec: the command transport ([exec] of the SDK) and the
    remote shell behind it, which are not part of the sources.  For the
    properties that speak of the remote file system, [Remote] is a model of
    them: a table from path text to node, and the effect of the command lines
    of [readFile], [writeFile], [createDirectory], [delete] and of the
    existence checks on it.  As the transport's interface has it, a command
    that exits with a failure on the remote side still returns, with its
    diagnostic on [stderr]; only a command line the model does not know is a
    transport failure.  The listing, [stat] and [mv] are not part of the
    model.

    The table is keyed by the text of absolute paths in normal form (see
    [canonical]); there are no symbolic links, no permissions and no limits
    on space.  The model reads paths and Base64 text with functions of its
    own ([ancestors], [encode], [decode]), as the utilities of the remote
    side do, and never with the provider's. *)

Module Remote.

Inductive node :=
| RFile (content : list Byte.byte)
| RDir.

Inductive command :=
| TestE (p : string) (or_else : bool)
| TestF (p : string)
| MkdirP (p : string)
| Base64Of (p : string)
| WriteB64 (text p : string)
| Rm (recursive : bool) (p : string).

Definition line (s : string) : string := s +:+ String Js.newline EmptyString.

Definition parse_test_e (cmd : string) : option command :=
  '(p, rest) ← Shell.argument_after "test -e " cmd;
  if String.eqb rest " && echo EXISTS" then Some (TestE p false)
  else if String.eqb rest " && echo EXISTS || echo NOTEXISTS" then Some (TestE p true)
  else None.

Definition parse_test_f (cmd : string) : option command :=
  '(p, rest) ← Shell.argument_after "test -f " cmd;
  if String.eqb rest " && echo EXISTS" then Some (TestF p) else None.

Definition parse_mkdir (cmd : string) : option command :=
  '(p, rest) ← Shell.argument_after "mkdir -p " cmd;
  if Js.is_empty rest then Some (MkdirP p) else None.

Definition parse_base64 (cmd : string) : option command :=
  '(p, rest) ← Shell.argument_after "base64 " cmd;
  if String.eqb rest " 2>/dev/null" then Some (Base64Of p) else None.

Definition parse_write (cmd : string) : option command :=
  '(text, rest) ← Shell.argument_after "echo " cmd;
  '(p, rest') ← Shell.argument_after " | base64 -d > " rest;
  if Js.is_empty rest' then Some (WriteB64 text p) else None.

Definition parse_rm (cmd : string) : option command :=
  match Shell.argument_after "rm -f " cmd with
  | Some (p, rest) => if Js.is_empty rest then Some (Rm false p) else None
  | None =>
      '(p, rest) ← Shell.argument_after "rm -rf " cmd;
      if Js.is_empty rest then Some (Rm true p) else None
  end.

Definition parse (cmd : string) : option command :=
  match cmd with
  | String "t" _ =>
      match parse_test_e cmd with Some c => Some c | None => parse_test_f cmd end
  | String "m" _ => parse_mkdir cmd
  | String "b" _ => parse_base64 cmd
  | String "e" _ => parse_write cmd
  | String "r" _ => parse_rm cmd
  | _ => None
  end.

(** *** Paths *)

(** The directory that the text before a slash names: the empty text, which
    is what precedes the leading slash, names the root. *)
Definition dir_name (pre : string) : string :=
  match pre with
  | EmptyString => "/"
  | String _ _ => pre
  end.

(** The directories named before each slash of [rest], where [pre] is the
    text of the path that precedes [rest]. *)
Fixpoint cuts (pre rest : string) : list string :=
  match rest with
  | EmptyString => []
  | String c r =>
      if Ascii.eqb c "/" then dir_name pre :: cuts (pre +:+ "/") r
      else cuts (pre +:+ String c EmptyString) r
  end.

(** The ancestor directories of [p], the root first: [/], [/tmp] and
    [/tmp/demo] for [/tmp/demo/a.txt].  The root has none. *)
Definition ancestors (p : string) : list string :=
  if String.eqb p "/" then [] else cuts EmptyString p.

(** [k] is [p] or lies below it. *)
Definition below (p k : string) : bool :=
  String.eqb k p || existsb (String.eqb p) (ancestors k).

(** The names between the slashes of [rest], where [cur] is the part of the
    current name already read. *)
Fixpoint names (cur rest : string) : list string :=
  match rest with
  | EmptyString => [cur]
  | String c r =>
      if Ascii.eqb c "/" then cur :: names EmptyString r
      else names (cur +:+ String c EmptyString) r
  end.

(** A name a directory entry can have: not empty, not [.] or [..], and
    without the character NUL. *)
Definition proper (n : string) : bool :=
  negb (Js.is_empty n || String.eqb n "." || String.eqb n "..")
  && forallb (fun c => negb (Ascii.eqb c zero)) (list_ascii_of_string n).

(** An absolute path in normal form: the root, or a slash followed by names
    separated by single slashes, none of them empty, [.] or [..]. *)
Definition canonical (p : string) : bool :=
  match p with
  | String c r =>
      Ascii.eqb c "/" && (Js.is_empty r || forallb proper (names EmptyString r))
  | EmptyString => false
  end.

(** The path text ends in a slash, and so can only name a directory. *)
Definition ends_in_slash (p : string) : bool :=
  match last (list_ascii_of_string p) with
  | Some c => Ascii.eqb c "/"
  | None => false
  end.

(** *** The [base64] utility (RFC 4648, with padding) *)

Definition digit (i : nat) : ascii :=
  if (i <? 26)%nat then ascii_of_nat (65 + i)
  else if (i <? 52)%nat then ascii_of_nat (97 + (i - 26))
  else if (i <? 62)%nat then ascii_of_nat (48 + (i - 52))
  else if (i =? 62)%nat then "+"%char
  else "/"%char.

Definition value (c : ascii) : option nat :=
  find (fun i => Ascii.eqb (digit i) c) (seq 0 64).

Definition code (x : Byte.byte) : nat := Byte.to_nat x.

Definition byte_of (n : nat) : Byte.byte := default Byte.x00 (Byte.of_nat n).

Fixpoint encode (l : list Byte.byte) : list ascii :=
  match l with
  | a :: b :: c :: r =>
      digit (code a / 4) :: digit (code a mod 4 * 16 + code b / 16)
      :: digit (code b mod 16 * 4 + code c / 64) :: digit (code c mod 64)
      :: encode r
  | [a; b] =>
      [digit (code a / 4); digit (code a mod 4 * 16 + code b / 16);
       digit (code b mod 16 * 4); "="%char]
  | [a] => [digit (code a / 4); digit (code a mod 4 * 16); "="%char; "="%char]
  | [] => []
  end.

Fixpoint decode (l : list ascii) : option (list Byte.byte) :=
  match l with
  | [] => Some []
  | c0 :: c1 :: c2 :: c3 :: r =>
      v0 ← value c0;
      v1 ← value c1;
      if Ascii.eqb c2 "=" then
        match r with
        | [] => if Ascii.eqb c3 "=" then Some [byte_of (v0 * 4 + v1 / 16)] else None
        | _ :: _ => None
        end
      else
        v2 ← value c2;
        if Ascii.eqb c3 "=" then
          match r with
          | [] => Some [byte_of (v0 * 4 + v1 / 16); byte_of (v1 mod 16 * 16 + v2 / 4)]
          | _ :: _ => None
          end
        else
          v3 ← value c3;
          rest ← decode r;
          Some (byte_of (v0 * 4 + v1 / 16) :: byte_of (v1 mod 16 * 16 + v2 / 4)
                :: byte_of (v2 mod 4 * 64 + v3) :: rest)
  | _ => None
  end.

(** Output of [base64 FILE]: lines of 76 characters. *)
Fixpoint wrap (col : nat) (s : string) : string :=
  match s with
  | EmptyString => EmptyString
  | String c r =>
      if (col =? 76)%nat then String Js.newline (String c (wrap 1 r))
      else String c (wrap (S col) r)
  end.

Definition base64_output (content : list Byte.byte) : string :=
  let text := string_of_list_ascii (encode content) in
  if Js.is_empty text then EmptyString else line (wrap 0 text).

(** *** The commands *)

Definition out (s : string) : ExecResult := {| stdout := s; stderr := EmptyString |}.
Definition err (s : string) : ExecResult := {| stdout := EmptyString; stderr := s |}.

(** A diagnostic, as the utilities print it: the utility, the path and the
    reason. *)
Definition diagnostic (utility p reason : string) : ExecResult :=
  err (line (utility +:+ ": '" +:+ p +:+ "': " +:+ reason)).

Definition is_dir (fs : gmap string node) (p : string) : bool :=
  match fs !! p with Some RDir => true | _ => false end.

Definition is_file (fs : gmap string node) (p : string) : bool :=
  match fs !! p with Some (RFile _) => true | _ => false end.

(** [mkdir -p] can make [p]: neither [p] nor an ancestor of it is a regular
    file. *)
Definition creatable (fs : gmap string node) (p : string) : bool :=
  negb (existsb (is_file fs) (ancestors p ++ [p])).

Definition make_dirs (dirs : list string) (fs : gmap string node) : gmap string node :=
  foldr (fun d m => <[d := RDir]> m) fs dirs.

Definition eval (c : command) (fs : gmap string node) : ExecResult * gmap string node :=
  match c with
  | TestE p or_else =>
      match fs !! p with
      | Some _ => (out (line "EXISTS"), fs)
      | None => (out (if or_else then line "NOTEXISTS" else EmptyString), fs)
      end
  | TestF p =>
      match fs !! p with
      | Some (RFile _) => (out (line "EXISTS"), fs)
      | _ => (out EmptyString, fs)
      end
  | MkdirP p =>
      if creatable fs p then (out EmptyString, make_dirs (ancestors p ++ [p]) fs)
      else (diagnostic "mkdir" p "Not a directory", fs)
  | Base64Of p =>
      match fs !! p with
      | Some (RFile content) => (out (base64_output content), fs)
      | _ => (out EmptyString, fs)
      end
  | WriteB64 text p =>
      if Js.is_empty p then (diagnostic "sh" p "No such file or directory", fs)
      else if ends_in_slash p || is_dir fs p
      then (diagnostic "sh" p "Is a directory", fs)
      else if negb (forallb (is_dir fs) (ancestors p))
      then (diagnostic "sh" p "Directory nonexistent", fs)
      else
        match decode (list_ascii_of_string text) with
        | Some content => (out EmptyString, <[p := RFile content]> fs)
        | None => (diagnostic "base64" p "invalid input", <[p := RFile []]> fs)
        end
  | Rm recursive p =>
      match fs !! p with
      | None => (out EmptyString, fs)
      | Some (RFile _) => (out EmptyString, base.delete p fs)
      | Some RDir =>
          if negb recursive then (diagnostic "rm" p "Is a directory", fs)
          else if String.eqb p "/" then (diagnostic "rm" p "Refusing to remove the root", fs)
          else (out EmptyString, filter (fun kv => below p (fst kv) = false) fs)
      end
  end.

Definition sh (cmd : string) (fs : gmap string node)
  : (string + ExecResult) * gmap string node :=
  match parse cmd with
  | Some c => let '(r, fs') := eval c fs in (inr r, fs')
  | None => (inl "unsupported command", fs)
  end.

(** The remote state: one file table per sprite name. *)
Definition files (w : gmap string (gmap string node)) (name : string)
  : gmap string node :=
  default ∅ (w !! name).

Definition handle (name : string) : Sprite (gmap string (gmap string node)) :=
  {| exec := fun cmd w =>
       let '(reply, fs') := sh cmd (files w name) in
       (reply, <[name := fs']> w) |}.

Definition transport : SpritesClient (gmap string (gmap string node)) :=
  {| sprite := handle |}.

(** The provider talks to the model: every handle it hands out is the
    model's. *)
Definition attached (st : St (gmap string (gmap string node))) : Prop :=
  ∀ n, resolve st n = Some (handle n).

(** A provider bound to the model by [setClient]. *)
Definition bound (w : gmap string (gmap string node))
  : St (gmap string (gmap string node)) :=
  snd (setClient transport (fresh w 0)).

(** A path at which a regular file can be put: a normal-form path other than
    the root that is not a directory and has no regular file among its
    ancestors (missing ancestors can be made). *)
Definition writable (fs : gmap string node) (p : string) : bool :=
  canonical p && negb (String.eqb p "/") && negb (is_dir fs p)
  && negb (existsb (is_file fs) (ancestors p)).

End Remote.

(** ** A scripted transport

    A test double for the transport: the remote state is the list of the
    replies still to be given, and every command takes the next one. *)

Module Scripted.

Definition handle : Sprite (list (string + ExecResult)) :=
  {| exec := fun _ replies =>
       match replies with
       | r :: rest => (r, rest)
       | [] => (inl "connection closed", [])
       end |}.

Definition transport : SpritesClient (list (string + ExecResult)) :=
  {| sprite := fun _ => handle |}.

(** A provider bound to the scripted transport by [setClient]. *)
Definition bound (replies : list (string + ExecResult))
  : St (list (string + ExecResult)) :=
  snd (setClient transport (fresh replies 1700000000000)).

Definition says (s : string) : string + ExecResult :=
  inr {| stdout := s; stderr := EmptyString |}.

End Scripted.

(** ** Sample locators and remote states *)

Module Sample.

Definition file_uri : Uri :=
  {| scheme := "sprite"; authority := "box1"; path := "/tmp/demo/a.txt" |}.

Definition other_uri : Uri :=
  {| scheme := "sprite"; authority := "box2"; path := "/tmp/demo/b.txt" |}.

Definition moved_uri : Uri :=
  {| scheme := "sprite"; authority := "box1"; path := "/tmp/demo/b.txt" |}.

Definition dir_uri : Uri :=
  {| scheme := "sprite"; authority := "box1"; path := "/d" |}.

Definition evil_path : string := "/tmp/$(reboot)".

Definition hello : list Byte.byte :=
  [Byte.x68; Byte.x65; Byte.x00; Byte.x6c; Byte.x6f].

(** A remote with only the root directory. *)
Definition root_only : gmap string (gmap string Remote.node) :=
  {[ "box1" := {[ "/" := Remote.RDir ]} ]}.


(** A remote with a non-empty directory [/d] and a sibling file [/dx]. *)
Definition with_dir : gmap string (gmap string Remote.node) :=
  {[ "box1" := {[ "/" := Remote.RDir; "/d" := Remote.RDir;
                  "/d/x" := Remote.RFile [Byte.x61]; "/dx" := Remote.RFile [] ]} ]}.

End Sample.

(** ** Decimal numerals *)

From Stdlib Require DecimalString DecimalN DecimalPos.

(** The decimal numeral of [n], as [stat] prints sizes and times. *)
Definition decimal (n : N) : string :=
  DecimalString.NilEmpty.string_of_uint (N.to_uint n).

(** * Proofs *)

Local Arguments String.append : simpl nomatch.

(** ** Base64 and strings *)

Section Triples.
Context {A : Type} (P : list A → Prop).
Hypothesis P0 : P [].
Hypothesis P1 : ∀ a, P [a].
Hypothesis P2 : ∀ a b, P [a; b].
Hypothesis P3 : ∀ a b c r, P r → P (a :: b :: c :: r).

Lemma list_ind3 : ∀ l, P l.
Proof.
  assert (H : ∀ l, P l ∧ (∀ a, P (a :: l)) ∧ (∀ a b, P (a :: b :: l))).
  { induction l as [|x l (Hl & Hl1 & Hl2)]; [by auto|].
    split; [apply Hl1|]. split; [intros; apply Hl2|].
    intros a b. by apply P3. }
  intros l. apply H.
Qed.
End Triples.

Lemma value_of_char_of s : Base64.value_of (Base64.char_of s) = Some s.
Proof. destruct s as [[] [] [] [] [] []]; reflexivity. Qed.

Lemma octets_sextets l : Base64.octets (Base64.sextets l) = l.
Proof.
  induction l as [|a|a b|a b c r IH] using list_ind3; simpl.
  - reflexivity.
  - destruct a; reflexivity.
  - destruct a, b; reflexivity.
  - rewrite IH. destruct a, b, c; reflexivity.
Qed.

Lemma mapM_value_of_char_of l :
  mapM Base64.value_of (map Base64.char_of l) = Some l.
Proof.
  induction l as [|s l IH]; [reflexivity|].
  simpl. rewrite value_of_char_of. simpl. rewrite IH. reflexivity.
Qed.

Lemma length_sextets_mod l : (length (Base64.sextets l) + length (list_ascii_of_string (Base64.padding (length l)))) mod 4 = 0.
Proof.
  induction l as [|a|a b|a b c r IH] using list_ind3; try reflexivity.
  cbn [Base64.sextets length].
  replace (Base64.padding (S (S (S (length r))))) with (Base64.padding (length r)).
  2:{ unfold Base64.padding. replace (S (S (S (length r)))) with (length r + 1 * 3) by lia. by rewrite Nat.Div0.mod_add. }
  replace (S (S (S (S (length (Base64.sextets r))))) + length (list_ascii_of_string (Base64.padding (length r)))) with ((length (Base64.sextets r) + length (list_ascii_of_string (Base64.padding (length r)))) + 1 * 4) by lia.
  by rewrite Nat.Div0.mod_add.
Qed.

Lemma char_of_class s :
  Js.is_space (Base64.char_of s) = false
  ∧ Base64.is_ascii_space (Base64.char_of s) = false
  ∧ Shell.is_special (Base64.char_of s) = false
  ∧ Ascii.eqb (Base64.char_of s) Base64.pad = false.
Proof. destruct s as [[] [] [] [] [] []]; repeat split; reflexivity. Qed.

Lemma list_ascii_of_append a b :
  list_ascii_of_string (a +:+ b) = list_ascii_of_string a ++ list_ascii_of_string b.
Proof. induction a as [|c a IH]; simpl; [reflexivity|]. by rewrite IH. Qed.

Lemma padding_cases n :
  Base64.padding n = "" ∨ Base64.padding n = "=" ∨ Base64.padding n = "==".
Proof.
  unfold Base64.padding. destruct (n mod 3) as [|[|[|k]]]; auto.
Qed.

Lemma strip_padding_chars sx tail :
  tail = [] ∨ tail = [Base64.pad] ∨ tail = [Base64.pad; Base64.pad] →
  Base64.strip_padding (map Base64.char_of sx ++ tail) = map Base64.char_of sx.
Proof.
  intros Ht. induction sx as [|s sx IH].
  - destruct Ht as [-> | [-> | ->]]; reflexivity.
  - cbn [map app Base64.strip_padding]. rewrite IH.
    destruct (char_of_class s) as (_ & _ & _ & Hp).
    unfold Base64.only_padding. rewrite Hp.
    destruct (map Base64.char_of sx ++ tail) as [|? [|? ?]]; reflexivity.
Qed.

Lemma filter_chars sx tail :
  tail = [] ∨ tail = [Base64.pad] ∨ tail = [Base64.pad; Base64.pad] →
  filter (λ c, negb (Base64.is_ascii_space c)) (map Base64.char_of sx ++ tail)
  = map Base64.char_of sx ++ tail.
Proof.
  intros Ht. induction sx as [|s sx IH].
  - destruct Ht as [-> | [-> | ->]]; reflexivity.
  - cbn [map app]. rewrite filter_cons, IH.
    destruct (char_of_class s) as (_ & -> & _ & _). reflexivity.
Qed.

Lemma length_sextets_not_1 l : (length (Base64.sextets l) mod 4 =? 1)%nat = false.
Proof.
  induction l as [|a|a b|a b c r IH] using list_ind3; try reflexivity.
  cbn [Base64.sextets length].
  replace (S (S (S (S (length (Base64.sextets r)))))) with (length (Base64.sextets r) + 1 * 4) by lia.
  by rewrite Nat.Div0.mod_add.
Qed.

Lemma atob_encode l :
  Base64.atob (Base64.encode l) = Some (string_of_list_ascii l).
Proof.
  unfold Base64.atob, Base64.encode.
  rewrite list_ascii_of_append, list_ascii_of_string_of_list_ascii.
  assert (Ht : list_ascii_of_string (Base64.padding (length l)) = []
             ∨ list_ascii_of_string (Base64.padding (length l)) = [Base64.pad]
             ∨ list_ascii_of_string (Base64.padding (length l)) = [Base64.pad; Base64.pad]).
  { destruct (padding_cases (length l)) as [-> | [-> | ->]]; auto. }
  rewrite filter_chars by exact Ht.
  rewrite length_app, length_map, length_sextets_mod. cbn [Nat.eqb].
  rewrite strip_padding_chars by exact Ht.
  rewrite length_map, length_sextets_not_1.
  rewrite mapM_value_of_char_of. cbn. by rewrite octets_sextets.
Qed.

Lemma encode_chars l :
  ∃ sx tail, list_ascii_of_string (Base64.encode l) = map Base64.char_of sx ++ tail
    ∧ (tail = [] ∨ tail = [Base64.pad] ∨ tail = [Base64.pad; Base64.pad]).
Proof.
  exists (Base64.sextets l), (list_ascii_of_string (Base64.padding (length l))).
  unfold Base64.encode.
  rewrite list_ascii_of_append, list_ascii_of_string_of_list_ascii.
  split; [reflexivity|].
  destruct (padding_cases (length l)) as [-> | [-> | ->]]; auto.
Qed.

Lemma encode_no_space l :
  Forall (λ c, Js.is_space c = false) (list_ascii_of_string (Base64.encode l)).
Proof.
  destruct (encode_chars l) as (sx & tail & -> & Ht).
  apply Forall_app. split.
  - apply Forall_map, Forall_forall. intros s _. apply char_of_class.
  - destruct Ht as [-> | [-> | ->]]; repeat constructor.
Qed.

Lemma plain_Forall s :
  Forall (λ c, Shell.is_special c = false) (list_ascii_of_string s) → Shell.plain s = true.
Proof.
  induction s as [|c s IH]; simpl; [done|].
  intros H. apply Forall_cons in H as [-> H]. simpl. by apply IH.
Qed.

Lemma encode_plain l : Shell.plain (Base64.encode l) = true.
Proof.
  apply plain_Forall.
  destruct (encode_chars l) as (sx & tail & -> & Ht).
  apply Forall_app. split.
  - apply Forall_map, Forall_forall. intros s _. apply char_of_class.
  - destruct Ht as [-> | [-> | ->]]; repeat constructor.
Qed.

Lemma strip_spaces_wrap s col :
  Forall (λ c, Js.is_space c = false) (list_ascii_of_string s) →
  Js.strip_spaces (Remote.wrap col s) = s.
Proof.
  revert col. induction s as [|c s IH]; intros col H; simpl; [done|].
  apply Forall_cons in H as [Hc H].
  destruct (col =? 76)%nat; simpl; rewrite Hc, IH; done.
Qed.

Lemma strip_spaces_line s :
  Js.strip_spaces (Remote.line s) = Js.strip_spaces s.
Proof.
  unfold Remote.line. induction s as [|c s IH]; simpl; [done|]. by rewrite IH.
Qed.

(** ** The remote [base64] against the provider's *)

Lemma code_ascii x : Remote.code x = nat_of_ascii (ascii_of_byte x).
Proof. destruct x; reflexivity. Qed.

Lemma nat_of_ascii_bits (a0 a1 a2 a3 a4 a5 a6 a7 : bool) :
  nat_of_ascii (Ascii a0 a1 a2 a3 a4 a5 a6 a7)
  = Nat.b2n a0 + 2 * Nat.b2n a1 + 4 * Nat.b2n a2 + 8 * Nat.b2n a3
    + 16 * Nat.b2n a4 + 32 * Nat.b2n a5 + 64 * Nat.b2n a6 + 128 * Nat.b2n a7.
Proof. destruct a0, a1, a2, a3, a4, a5, a6, a7; reflexivity. Qed.

Lemma char_of_digit s : Base64.char_of s = Remote.digit (Base64.sextet_val s).
Proof. destruct s as [[] [] [] [] [] []]; reflexivity. Qed.

Lemma b2n_le b : (Nat.b2n b <= 1)%nat.
Proof. destruct b; simpl; lia. Qed.

(** Linear arithmetic with division and remainder by constants. *)
Ltac euclid := zify; Z.to_euclidean_division_equations; lia.

Ltac bits :=
  repeat match goal with
  | |- context [Nat.b2n ?b] =>
      let x := fresh "x" in
      pose proof (b2n_le b); set (x := Nat.b2n b) in *; clearbody x
  end.

Lemma sextet_hi6 a : Base64.sextet_val (Base64.hi6 a) = nat_of_ascii a / 4.
Proof.
  destruct a as [a0 a1 a2 a3 a4 a5 a6 a7]. rewrite nat_of_ascii_bits.
  unfold Base64.hi6, Base64.sextet_val. bits. euclid.
Qed.

Lemma sextet_lo2_hi4 a b :
  Base64.sextet_val (Base64.lo2_hi4 a b) = nat_of_ascii a mod 4 * 16 + nat_of_ascii b / 16.
Proof.
  destruct a as [a0 a1 a2 a3 a4 a5 a6 a7], b as [b0 b1 b2 b3 b4 b5 b6 b7].
  rewrite !nat_of_ascii_bits.
  unfold Base64.lo2_hi4, Base64.sextet_val. bits. euclid.
Qed.

Lemma sextet_lo4_hi2 b c :
  Base64.sextet_val (Base64.lo4_hi2 b c) = nat_of_ascii b mod 16 * 4 + nat_of_ascii c / 64.
Proof.
  destruct b as [b0 b1 b2 b3 b4 b5 b6 b7], c as [c0 c1 c2 c3 c4 c5 c6 c7].
  rewrite !nat_of_ascii_bits.
  unfold Base64.lo4_hi2, Base64.sextet_val. bits. euclid.
Qed.

Lemma sextet_lo6 c : Base64.sextet_val (Base64.lo6 c) = nat_of_ascii c mod 64.
Proof.
  destruct c as [c0 c1 c2 c3 c4 c5 c6 c7]. rewrite nat_of_ascii_bits.
  unfold Base64.lo6, Base64.sextet_val. bits. euclid.
Qed.

Lemma digit_value i : (i < 64)%nat → Remote.value (Remote.digit i) = Some i.
Proof.
  intros H. do 64 (destruct i as [|i]; [reflexivity|]). lia.
Qed.

Lemma digit_not_pad i : (i < 64)%nat → Ascii.eqb (Remote.digit i) "=" = false.
Proof.
  intros H. do 64 (destruct i as [|i]; [reflexivity|]). lia.
Qed.

Lemma code_bound x : (Remote.code x < 256)%nat.
Proof. unfold Remote.code. pose proof (Byte.to_nat_bounded x). lia. Qed.

Lemma byte_of_code x : Remote.byte_of (Remote.code x) = x.
Proof. unfold Remote.byte_of, Remote.code. by rewrite Byte.of_to_nat. Qed.

Lemma byte_of_eq n x : n = Remote.code x → Remote.byte_of n = x.
Proof. intros ->. apply byte_of_code. Qed.

Lemma decode_encode l : Remote.decode (Remote.encode l) = Some l.
Proof.
  induction l as [|a|a b|a b c r IH] using list_ind3.
  - reflexivity.
  - pose proof (code_bound a). cbn [Remote.encode Remote.decode].
    rewrite !digit_value by euclid. cbn -[Nat.div Nat.modulo Nat.mul Nat.add].
    do 2 f_equal. apply byte_of_eq. euclid.
  - pose proof (code_bound a). pose proof (code_bound b).
    cbn [Remote.encode Remote.decode].
    rewrite !digit_value by euclid. cbn -[Nat.div Nat.modulo Nat.mul Nat.add].
    rewrite digit_not_pad by euclid.
    f_equal. f_equal; [|f_equal]; apply byte_of_eq; euclid.
  - pose proof (code_bound a). pose proof (code_bound b). pose proof (code_bound c).
    cbn [Remote.encode Remote.decode].
    rewrite !digit_value by euclid. cbn -[Nat.div Nat.modulo Nat.mul Nat.add].
    rewrite !digit_not_pad by euclid. rewrite IH. cbn -[Nat.div Nat.modulo Nat.mul Nat.add].
    f_equal. f_equal; [|f_equal; [|f_equal]]; apply byte_of_eq; euclid.
Qed.

Lemma char_hi6 a : Base64.char_of (Base64.hi6 (ascii_of_byte a)) = Remote.digit (Remote.code a / 4).
Proof. by rewrite char_of_digit, sextet_hi6, code_ascii. Qed.

Lemma char_lo2_hi4 a b :
  Base64.char_of (Base64.lo2_hi4 (ascii_of_byte a) (ascii_of_byte b))
  = Remote.digit (Remote.code a mod 4 * 16 + Remote.code b / 16).
Proof. by rewrite char_of_digit, sextet_lo2_hi4, !code_ascii. Qed.

Lemma char_lo2 a :
  Base64.char_of (Base64.lo2_hi4 (ascii_of_byte a) zero)
  = Remote.digit (Remote.code a mod 4 * 16).
Proof.
  rewrite char_of_digit, sextet_lo2_hi4, code_ascii. f_equal.
  change (nat_of_ascii zero) with 0%nat. euclid.
Qed.

Lemma char_lo4_hi2 b c :
  Base64.char_of (Base64.lo4_hi2 (ascii_of_byte b) (ascii_of_byte c))
  = Remote.digit (Remote.code b mod 16 * 4 + Remote.code c / 64).
Proof. by rewrite char_of_digit, sextet_lo4_hi2, !code_ascii. Qed.

Lemma char_lo4 b :
  Base64.char_of (Base64.lo4_hi2 (ascii_of_byte b) zero)
  = Remote.digit (Remote.code b mod 16 * 4).
Proof.
  rewrite char_of_digit, sextet_lo4_hi2, code_ascii. f_equal.
  change (nat_of_ascii zero) with 0%nat. euclid.
Qed.

Lemma char_lo6 c :
  Base64.char_of (Base64.lo6 (ascii_of_byte c)) = Remote.digit (Remote.code c mod 64).
Proof. by rewrite char_of_digit, sextet_lo6, code_ascii. Qed.

Lemma padding_plus_3 n : Base64.padding (S (S (S n))) = Base64.padding n.
Proof.
  unfold Base64.padding. replace (S (S (S n))) with (n + 1 * 3)%nat by lia.
  by rewrite Nat.Div0.mod_add.
Qed.

(** The remote [base64] and [Buffer.toString('base64')] print the same
    text. *)
Lemma encode_agrees b : string_of_list_ascii (Remote.encode b) = to_base64 b.
Proof.
  unfold to_base64, Base64.encode.
  induction b as [|x|x y|x y z r IH] using list_ind3.
  - reflexivity.
  - cbn [map Base64.sextets Remote.encode string_of_list_ascii length].
    by rewrite char_hi6, char_lo2.
  - cbn [map Base64.sextets Remote.encode string_of_list_ascii length].
    by rewrite char_hi6, char_lo2_hi4, char_lo4.
  - cbn [map Base64.sextets Remote.encode string_of_list_ascii length].
    rewrite padding_plus_3, char_hi6, char_lo2_hi4, char_lo4_hi2, char_lo6, IH.
    reflexivity.
Qed.

Lemma decode_to_base64 b :
  Remote.decode (list_ascii_of_string (to_base64 b)) = Some b.
Proof.
  by rewrite <- encode_agrees, list_ascii_of_string_of_list_ascii, decode_encode.
Qed.

Lemma strip_spaces_base64_output b :
  Js.strip_spaces (Remote.base64_output b) = to_base64 b.
Proof.
  unfold Remote.base64_output. cbv zeta. rewrite encode_agrees.
  destruct (Js.is_empty (to_base64 b)) eqn:E.
  - destruct (to_base64 b); done.
  - rewrite strip_spaces_line. apply strip_spaces_wrap, encode_no_space.
Qed.

Lemma to_base64_empty b : Js.is_empty (to_base64 b) = true ↔ b = [].
Proof.
  split; [|intros ->; reflexivity].
  destruct b as [|x [|y [|z r]]]; [done|..]; discriminate.
Qed.

Lemma bytes_of_binary_ascii b :
  bytes_of_binary (string_of_list_ascii (map ascii_of_byte b)) = b.
Proof.
  unfold bytes_of_binary. rewrite list_ascii_of_string_of_list_ascii, map_map.
  induction b as [|x b IH]; simpl; [done|].
  by rewrite byte_of_ascii_of_byte, IH.
Qed.

Lemma atob_to_base64 b :
  bytes_of_binary <$> Base64.atob (to_base64 b) = Some b.
Proof. unfold to_base64. rewrite atob_encode. simpl. by rewrite bytes_of_binary_ascii. Qed.

(** ** The shell's reading of plain arguments *)

Lemma dq_read_plain s rest :
  Shell.plain s = true →
  Shell.dq_read (s +:+ String Js.dquote rest) = Some (s, rest).
Proof.
  induction s as [|c s IH]; simpl; [done|].
  intros [Hc Hs]%andb_true_iff. apply negb_true_iff in Hc.
  unfold Shell.is_special in Hc.
  apply orb_false_iff in Hc as [Hc H4]. apply orb_false_iff in Hc as [Hc H3].
  apply orb_false_iff in Hc as [H1 H2].
  rewrite H1, H2, H3, H4. simpl. by rewrite IH.
Qed.

Lemma strip_prefix_app pre s : Shell.strip_prefix pre (pre +:+ s) = Some s.
Proof. induction pre as [|c pre IH]; simpl; [done|]. by rewrite Ascii.eqb_refl. Qed.

Lemma append_assoc (a b c : string) : (a +:+ b) +:+ c = a +:+ (b +:+ c).
Proof. induction a as [|x a IH]; simpl; [done|]. by rewrite IH. Qed.

Lemma argument_after_plain pre arg suf :
  Shell.plain arg = true →
  Shell.argument_after pre (pre +:+ in_dquotes arg +:+ suf) = Some (arg, suf).
Proof.
  intros H. unfold Shell.argument_after, in_dquotes.
  replace (pre +:+ String Js.dquote (arg +:+ String Js.dquote "") +:+ suf)
    with ((pre +:+ String Js.dquote "") +:+ (arg +:+ String Js.dquote suf)).
  - rewrite strip_prefix_app. simpl. by apply dq_read_plain.
  - rewrite append_assoc. simpl. by rewrite append_assoc.
Qed.

Lemma recognise_exists_or_not p :
  Shell.plain p = true → Remote.parse (cmd_exists_or_not p) = Some (Remote.TestE p true).
Proof.
  intros H. unfold Remote.parse, Remote.parse_test_e, cmd_exists_or_not.
  rewrite argument_after_plain by done. reflexivity.
Qed.

Lemma recognise_test_e p :
  Shell.plain p = true → Remote.parse (cmd_test_e p) = Some (Remote.TestE p false).
Proof.
  intros H. unfold Remote.parse, Remote.parse_test_e, cmd_test_e.
  rewrite argument_after_plain by done. reflexivity.
Qed.

Lemma recognise_test_f p :
  Shell.plain p = true → Remote.parse (cmd_test_f p) = Some (Remote.TestF p).
Proof.
  intros H. unfold Remote.parse, Remote.parse_test_e, Remote.parse_test_f, cmd_test_f.
  replace (Shell.argument_after "test -e " ("test -f " +:+ in_dquotes p +:+ " && echo EXISTS"))
    with (@None (string * string)) by reflexivity.
  rewrite argument_after_plain by done. reflexivity.
Qed.

Lemma append_empty_r (s : string) : s +:+ "" = s.
Proof. induction s as [|c s IH]; simpl; [done|]. by rewrite IH. Qed.

Lemma argument_after_plain_end pre arg :
  Shell.plain arg = true →
  Shell.argument_after pre (pre +:+ in_dquotes arg) = Some (arg, "").
Proof.
  intros H. rewrite <- (append_empty_r (in_dquotes arg)).
  by apply argument_after_plain.
Qed.

Lemma recognise_mkdir p :
  Shell.plain p = true → Remote.parse (cmd_mkdir p) = Some (Remote.MkdirP p).
Proof.
  intros H. unfold Remote.parse, Remote.parse_mkdir, cmd_mkdir.
  rewrite argument_after_plain_end by done. reflexivity.
Qed.

Lemma recognise_base64 p :
  Shell.plain p = true → Remote.parse (cmd_base64 p) = Some (Remote.Base64Of p).
Proof.
  intros H. unfold Remote.parse, Remote.parse_base64, cmd_base64.
  rewrite argument_after_plain by done. reflexivity.
Qed.

Lemma recognise_write text p :
  Shell.plain text = true → Shell.plain p = true →
  Remote.parse (cmd_write text p) = Some (Remote.WriteB64 text p).
Proof.
  intros Ht H. unfold Remote.parse, Remote.parse_write, cmd_write.
  rewrite argument_after_plain by done. unfold mbind, option_bind.
  rewrite argument_after_plain_end by done. reflexivity.
Qed.

Lemma recognise_rm (recursive : bool) p :
  Shell.plain p = true →
  Remote.parse (cmd_rm (if recursive then "-rf" else "-f") p)
  = Some (Remote.Rm recursive p).
Proof.
  intros H. unfold Remote.parse, Remote.parse_rm, cmd_rm. destruct recursive.
  - replace (Shell.argument_after "rm -f " ("rm " +:+ "-rf" +:+ " " +:+ in_dquotes p))
      with (@None (string * string)) by reflexivity.
    change ("rm " +:+ "-rf" +:+ " " +:+ in_dquotes p) with ("rm -rf " +:+ in_dquotes p).
    rewrite argument_after_plain_end by done. reflexivity.
  - change ("rm " +:+ "-f" +:+ " " +:+ in_dquotes p) with ("rm -f " +:+ in_dquotes p).
    rewrite argument_after_plain_end by done. reflexivity.
Qed.

(** ** The operations over any transport *)

Section Steps.
Context {W : Type}.
Implicit Types (st : St W) (sp : Sprite W).

Lemma effects_refl st : effects st st [] (remote st) [].
Proof. unfold effects. rewrite !app_nil_r. done. Qed.

Lemma effects_trans st st1 st2 c1 c2 w1 w2 e1 e2 :
  effects st st1 c1 w1 e1 → effects st1 st2 c2 w2 e2 →
  effects st st2 (c1 ++ c2) w2 (e1 ++ e2).
Proof.
  intros (Hi & Hr & He & Hs & Hn) (Hi' & Hr' & He' & Hs' & Hn').
  unfold effects. rewrite Hi', Hi, He', He, Hn', Hn, !app_assoc.
  repeat split; try done. intros n. by rewrite Hs', Hs.
Qed.

Lemma getSprite_some st name sp :
  resolve st name = Some sp →
  ∃ st1, getSprite name st = (Ok sp, st1) ∧ effects st st1 [] (remote st) [].
Proof.
  unfold resolve, getSprite. destruct (client st) as [c|] eqn:Hc; [|done].
  intros [= <-]. destruct (spriteCache st !! name) as [sp|] eqn:Hsp; simpl.
  - eexists. split; [reflexivity|]. apply effects_refl.
  - eexists. split; [reflexivity|]. unfold effects, resolve; simpl.
    rewrite !app_nil_r, Hc. repeat split; try done.
    intros n. destruct (decide (name = n)) as [<-|Hne].
    + by rewrite lookup_insert_eq, Hsp.
    + by rewrite lookup_insert_ne.
Qed.

Lemma getSprite_none st name :
  client st = None →
  getSprite name st = (Throw (FsError (Unavailable "Not connected to Sprites API")), st).
Proof. unfold getSprite. by intros ->. Qed.

Lemma run_reply st name sp command reply w :
  exec sp command (remote st) = (reply, w) →
  ∃ st1,
    run name sp command st =
      (match reply with inl m => Throw (JsError m) | inr r => Ok r end, st1)
    ∧ effects st st1 [(name, command)] w [].
Proof.
  intros H. unfold run. rewrite H.
  destruct reply; (eexists; split; [reflexivity|]);
    unfold effects, resolve; simpl; rewrite ?app_nil_r; done.
Qed.

Lemma fire_events st events :
  ∃ st1, fire events st = (Ok tt, st1) ∧ effects st st1 [] (remote st) [events].
Proof.
  eexists. split; [reflexivity|].
  unfold effects, resolve; simpl; rewrite ?app_nil_r; done.
Qed.

Lemma bind_ok {A B} (m : M W A) (k : A → M W B) st a st1 :
  m st = (Ok a, st1) → bind m k st = k a st1.
Proof. unfold bind. by intros ->. Qed.

Lemma bind_throw {A B} (m : M W A) (k : A → M W B) st e st1 :
  m st = (Throw e, st1) → bind m k st = (Throw e, st1).
Proof. unfold bind. by intros ->. Qed.

Lemma try_catch_ok {A} (m : M W A) h st a st1 :
  m st = (Ok a, st1) → try_catch m h st = (Ok a, st1).
Proof. unfold try_catch. by intros ->. Qed.

Lemma try_catch_throw {A} (m : M W A) h st e st1 :
  m st = (Throw e, st1) → try_catch m h st = h e st1.
Proof. unfold try_catch. by intros ->. Qed.

(** C3.  When the two locators name different targets, [rename] fails at
    once with the permission-denied error, whatever the paths and the
    [overwrite] option are, and whether or not a client is set: the state is
    left as it was, so no command is sent (in particular no copy and no
    delete) and no event is fired. *)
Theorem rename_across_targets st oldUri newUri overwrite :
  authority oldUri ≠ authority newUri →
  rename oldUri newUri overwrite st
  = (Throw (FsError (NoPermissions "Cannot move files between different Sprites")), st).
Proof.
  intros Hne. unfold rename, parseUri.
  apply String.eqb_neq in Hne. rewrite Hne. reflexivity.
Qed.

(** C4.  [writeFile] with [create = false] and [overwrite = false]: when the
    existence check does not answer [EXISTS] the call fails with
    [FileNotFound], and when it answers [EXISTS] the call fails with
    [FileExists].  In both cases the existence check is the only command
    sent, the remote side is as that check left it, and no event is fired. *)
Theorem writeFile_neither_create_nor_overwrite st u content sp reply w :
  let name := fst (parseUri u) in
  let p := snd (parseUri u) in
  resolve st name = Some sp →
  exec sp (cmd_exists_or_not p) (remote st) = (inr reply, w) →
  (Js.trim (stdout reply) ≠ "EXISTS" →
     ∃ st', writeFile u content {| create := false; overwrite := false |} st
            = (Throw (FsError (FileNotFound u)), st')
          ∧ effects st st' [(name, cmd_exists_or_not p)] w [])
  ∧ (Js.trim (stdout reply) = "EXISTS" →
     ∃ st', writeFile u content {| create := false; overwrite := false |} st
            = (Throw (FsError (FileExists u)), st')
          ∧ effects st st' [(name, cmd_exists_or_not p)] w []).
Proof.
  intros name p Hsp Hexec.
  destruct (getSprite_some _ _ _ Hsp) as (st1 & Hget & E1).
  assert (Hr1 : remote st1 = remote st) by apply E1.
  rewrite <- Hr1 in Hexec.
  destruct (run_reply st1 name _ _ _ _ Hexec) as (st2 & Hrun & E2).
  pose proof (effects_trans _ _ _ _ _ _ _ _ _ E1 E2) as E. simpl in E.
  unfold writeFile. fold name p. change (parseUri u) with (name, p). cbv beta iota.
  rewrite (bind_ok _ _ _ _ _ Hget).
  split; intros Hout; exists st2; (split; [|exact E]).
  - rewrite (try_catch_throw _ _ _ (FsError (FileNotFound u)) st2); [reflexivity|].
    rewrite (bind_ok _ _ _ _ _ Hrun). unfold toStr.
    apply String.eqb_neq in Hout. rewrite Hout. reflexivity.
  - rewrite (try_catch_throw _ _ _ (FsError (FileExists u)) st2); [reflexivity|].
    rewrite (bind_ok _ _ _ _ _ Hrun). unfold toStr.
    rewrite Hout. reflexivity.
Qed.

Lemma effects_remote st st' c w e : effects st st' c w e → remote st' = w.
Proof. intros H. apply H. Qed.

(** C6.  [stat] sends the command whose fallback prints the sentinel.  When
    the reply is the sentinel [NOTFOUND] (surrounded by any white space),
    the call fails with [FileNotFound] for the locator; when the transport
    itself fails, the call fails with [Unavailable] carrying the transport's
    message. *)
Theorem stat_failures st u sp w :
  let name := fst (parseUri u) in
  let p := snd (parseUri u) in
  resolve st name = Some sp →
  (∀ reply, exec sp (cmd_stat p) (remote st) = (inr reply, w) →
     Js.trim (stdout reply) = "NOTFOUND" →
     ∃ st', stat u st = (Throw (FsError (FileNotFound u)), st')
            ∧ effects st st' [(name, cmd_stat p)] w [])
  ∧ (∀ message, exec sp (cmd_stat p) (remote st) = (inl message, w) →
     ∃ st', stat u st = (Throw (FsError (Unavailable message)), st')
            ∧ effects st st' [(name, cmd_stat p)] w []).
Proof.
  intros name p Hsp.
  destruct (getSprite_some _ _ _ Hsp) as (st1 & Hget & E1).
  unfold stat. fold name p. change (parseUri u) with (name, p). cbv beta iota.
  rewrite (bind_ok _ _ _ _ _ Hget).
  split.
  - intros reply Hexec Hout.
    rewrite <- (effects_remote _ _ _ _ _ E1) in Hexec.
    destruct (run_reply st1 name _ _ _ _ Hexec) as (st2 & Hrun & E2).
    exists st2. split; [|exact (effects_trans _ _ _ _ _ _ _ _ _ E1 E2)].
    rewrite (try_catch_throw _ _ _ (FsError (FileNotFound u)) st2); [reflexivity|].
    rewrite (bind_ok _ _ _ _ _ Hrun). cbv zeta. unfold toStr. rewrite Hout. reflexivity.
  - intros message Hexec.
    rewrite <- (effects_remote _ _ _ _ _ E1) in Hexec.
    destruct (run_reply st1 name _ _ _ _ Hexec) as (st2 & Hrun & E2).
    exists st2. split; [|exact (effects_trans _ _ _ _ _ _ _ _ _ E1 E2)].
    rewrite (try_catch_throw _ _ _ (JsError message) st2); [reflexivity|].
    by rewrite (bind_throw _ _ _ _ _ Hrun).
Qed.

(** C10.  [delete] never fails with [FileNotFound], in any state, for any
    locator and for both values of [recursive].  The command it sends is
    [rm -f] or [rm -rf] on the quoted path, and whenever the transport call
    returns, the call succeeds and fires exactly one batch holding one
    [Deleted] event for the locator, whatever the command did on the remote
    side. *)
Theorem delete_is_forced st u (recursive : bool) :
  let name := fst (parseUri u) in
  let p := snd (parseUri u) in
  let command := cmd_rm (if recursive then "-rf" else "-f") p in
  (∀ u', fst (delete u recursive st) ≠ Throw (FsError (FileNotFound u')))
  ∧ (∀ sp reply w,
       resolve st name = Some sp →
       exec sp command (remote st) = (inr reply, w) →
       ∃ st', delete u recursive st = (Ok tt, st')
              ∧ effects st st' [(name, command)] w [[ {| change := Deleted; uri := u |} ]]).
Proof.
  intros name p command.
  unfold delete. fold name p. change (parseUri u) with (name, p). cbv beta iota zeta.
  fold command. split.
  - intros u'. destruct (client st) as [c|] eqn:Hc.
    + assert (Hsp : resolve st name
                    = Some (default (sprite c name) (spriteCache st !! name)))
        by (unfold resolve; by rewrite Hc).
      destruct (getSprite_some _ _ _ Hsp) as (st1 & Hget & E1).
      rewrite (bind_ok _ _ _ _ _ Hget).
      destruct (exec (default (sprite c name) (spriteCache st !! name)) command (remote st1))
        as [[message|reply] w] eqn:Hexec;
        destruct (run_reply st1 name _ _ _ _ Hexec) as (st2 & Hrun & E2).
      * rewrite (try_catch_throw _ _ _ (JsError message) st2); [done|].
        by rewrite (bind_throw _ _ _ _ _ Hrun).
      * destruct (fire_events st2 [ {| change := Deleted; uri := u |} ]) as (st3 & Hfire & _).
        rewrite (try_catch_ok _ _ _ tt st3); [done|].
        by rewrite (bind_ok _ _ _ _ _ Hrun).
    + rewrite (bind_throw _ _ _ _ _ (getSprite_none st name Hc)). done.
  - intros sp reply w Hsp Hexec.
    destruct (getSprite_some _ _ _ Hsp) as (st1 & Hget & E1).
    rewrite (bind_ok _ _ _ _ _ Hget).
    rewrite <- (effects_remote _ _ _ _ _ E1) in Hexec.
    destruct (run_reply st1 name _ _ _ _ Hexec) as (st2 & Hrun & E2).
    destruct (fire_events st2 [ {| change := Deleted; uri := u |} ]) as (st3 & Hfire & E3).
    rewrite (effects_remote _ _ _ _ _ E2) in E3.
    exists st3. split.
    + rewrite (try_catch_ok _ _ _ tt st3); [done|].
      by rewrite (bind_ok _ _ _ _ _ Hrun).
    + exact (effects_trans _ _ _ _ _ _ _ _ _ E1 (effects_trans _ _ _ _ _ _ _ _ _ E2 E3)).
Qed.

(** C9.  [rename] within one target with [overwrite = false] first sends an
    existence check on the destination.  When it answers [EXISTS], the call
    fails with [FileExists] for the new locator and no move is sent.
    Otherwise the move is sent after the check and, when it returns, the call
    succeeds and fires [Deleted] for the old locator and [Created] for the
    new one. *)
Theorem rename_without_overwrite st oldUri newUri sp reply w1 :
  let name := fst (parseUri oldUri) in
  let a := snd (parseUri oldUri) in
  let b := snd (parseUri newUri) in
  authority oldUri = authority newUri →
  resolve st name = Some sp →
  exec sp (cmd_test_e b) (remote st) = (inr reply, w1) →
  (Js.trim (stdout reply) = "EXISTS" →
     ∃ st', rename oldUri newUri false st = (Throw (FsError (FileExists newUri)), st')
            ∧ effects st st' [(name, cmd_test_e b)] w1 [])
  ∧ (Js.trim (stdout reply) ≠ "EXISTS" →
     ∀ moved w2, exec sp (cmd_mv a b) w1 = (inr moved, w2) →
     ∃ st', rename oldUri newUri false st = (Ok tt, st')
            ∧ effects st st' [(name, cmd_test_e b); (name, cmd_mv a b)] w2
                [[ {| change := Deleted; uri := oldUri |};
                   {| change := Created; uri := newUri |} ]]).
Proof.
  intros name a b Hsame Hsp Hexec.
  destruct (getSprite_some _ _ _ Hsp) as (st1 & Hget & E1).
  rewrite <- (effects_remote _ _ _ _ _ E1) in Hexec.
  destruct (run_reply st1 name _ _ _ _ Hexec) as (st2 & Hrun & E2).
  pose proof (effects_trans _ _ _ _ _ _ _ _ _ E1 E2) as E12. simpl in E12.
  unfold rename. fold name a b.
  change (parseUri oldUri) with (name, a).
  replace (parseUri newUri) with (name, b)
    by (unfold name, b, parseUri; simpl; by rewrite Hsame).
  cbv beta iota. rewrite String.eqb_refl. cbn [negb].
  rewrite (bind_ok _ _ _ _ _ Hget).
  split.
  - intros Hout. exists st2. split; [|exact E12].
    rewrite (try_catch_throw _ _ _ (FsError (FileExists newUri)) st2); [reflexivity|].
    apply bind_throw. rewrite (bind_ok _ _ _ _ _ Hrun).
    unfold toStr. rewrite Hout. reflexivity.
  - intros Hout moved w2 Hmv. apply String.eqb_neq in Hout.
    rewrite <- (effects_remote _ _ _ _ _ E2) in Hmv.
    destruct (run_reply st2 name _ _ _ _ Hmv) as (st3 & Hrun3 & E3).
    destruct (fire_events st3 [ {| change := Deleted; uri := oldUri |};
                                {| change := Created; uri := newUri |} ])
      as (st4 & Hfire & E4).
    rewrite (effects_remote _ _ _ _ _ E3) in E4.
    exists st4. split.
    + rewrite (try_catch_ok _ _ _ tt st4); [reflexivity|].
      rewrite (bind_ok _ _ _ tt st2).
      * by rewrite (bind_ok _ _ _ _ _ Hrun3).
      * rewrite (bind_ok _ _ _ _ _ Hrun). unfold toStr. rewrite Hout. reflexivity.
    + exact (effects_trans _ _ _ _ _ _ _ _ _ E12 (effects_trans _ _ _ _ _ _ _ _ _ E3 E4)).
Qed.

Lemma try_catch_fs {A} (m : M W A) st (res : Res A) st' :
  m st = (res, st') → (∀ msg, res ≠ Throw (JsError msg)) →
  try_catch m rethrow_fs st = (res, st').
Proof.
  intros Hm Hres. unfold try_catch. rewrite Hm.
  destruct res as [a|[e|msg]]; [done|done|]. by destruct (Hres msg).
Qed.

Lemma is_empty_true s : Js.is_empty s = true ↔ s = "".
Proof. destruct s; simpl; split; congruence. Qed.

Lemma is_empty_false s : Js.is_empty s = false ↔ s ≠ "".
Proof. destruct s; simpl; split; congruence. Qed.

(** C5.  [readFile]: when the output of the encoding command is empty once
    its white space is removed, a follow-up existence check is sent, and the
    call returns the empty byte sequence when the check answers [EXISTS] and
    fails with [FileNotFound] otherwise.  When the output is not empty, the
    encoding command is the only one sent and the result is the decoding of
    the output. *)
Theorem readFile_empty_output st u sp reply w1 :
  let name := fst (parseUri u) in
  let p := snd (parseUri u) in
  let content := Js.strip_spaces (stdout reply) in
  resolve st name = Some sp →
  exec sp (cmd_base64 p) (remote st) = (inr reply, w1) →
  (content = "" →
     ∀ check w2, exec sp (cmd_test_f p) w1 = (inr check, w2) →
     ∃ st', readFile u st
            = (if String.eqb (Js.trim (stdout check)) "EXISTS"
               then Ok [] else Throw (FsError (FileNotFound u)), st')
            ∧ effects st st' [(name, cmd_base64 p); (name, cmd_test_f p)] w2 [])
  ∧ (content ≠ "" →
     ∃ st', readFile u st
            = (match Base64.atob content with
               | Some binary => Ok (bytes_of_binary binary)
               | None => Throw (FsError (Unavailable atob_message))
               end, st')
            ∧ effects st st' [(name, cmd_base64 p)] w1 []).
Proof.
  intros name p content Hsp Hexec.
  destruct (getSprite_some _ _ _ Hsp) as (st1 & Hget & E1).
  rewrite <- (effects_remote _ _ _ _ _ E1) in Hexec.
  destruct (run_reply st1 name _ _ _ _ Hexec) as (st2 & Hrun & E2).
  pose proof (effects_trans _ _ _ _ _ _ _ _ _ E1 E2) as E12. simpl in E12.
  unfold readFile. fold name p. change (parseUri u) with (name, p). cbv beta iota.
  rewrite (bind_ok _ _ _ _ _ Hget).
  split.
  - intros Hempty check w2 Hcheck.
    rewrite <- (effects_remote _ _ _ _ _ E2) in Hcheck.
    destruct (run_reply st2 name _ _ _ _ Hcheck) as (st3 & Hrun3 & E3).
    exists st3. split; [|exact (effects_trans _ _ _ _ _ _ _ _ _ E12 E3)].
    apply try_catch_fs.
    + rewrite (bind_ok _ _ _ _ _ Hrun). cbv zeta. unfold toStr. fold content.
      rewrite Hempty. cbn [Js.is_empty].
      rewrite (bind_ok _ _ _ _ _ Hrun3).
      destruct (String.eqb (Js.trim (stdout check)) "EXISTS"); reflexivity.
    + intros msg. destruct (String.eqb (Js.trim (stdout check)) "EXISTS"); done.
  - intros Hne. exists st2. split; [|exact E12].
    apply is_empty_false in Hne.
    unfold try_catch. rewrite (bind_ok _ _ _ _ _ Hrun). cbv zeta. unfold toStr.
    fold content. rewrite Hne.
    destruct (Base64.atob content); reflexivity.
Qed.

Lemma endsWith_snoc s c d : Js.endsWith (s +:+ String c "") d = Ascii.eqb c d.
Proof.
  induction s as [|x s IH]; [reflexivity|].
  simpl. rewrite IH. destruct s; reflexivity.
Qed.

Lemma slice_init_snoc s c : Js.slice_init (s +:+ String c "") = s.
Proof.
  induction s as [|x s IH]; [reflexivity|].
  simpl. rewrite IH. destruct s; reflexivity.
Qed.

Lemma is_empty_snoc s c : Js.is_empty (s +:+ String c "") = false.
Proof. destruct s; reflexivity. Qed.

Lemma listing_step_app acc line :
  listing_step acc line = acc ++ listing_step [] line.
Proof.
  unfold listing_step. destruct (Js.is_empty line); [by rewrite app_nil_r|].
  repeat match goal with
         | |- context [if ?b then _ else _] => destruct b
         end; cbv beta iota; rewrite ?app_nil_r; reflexivity.
Qed.

Lemma parse_listing_lines output :
  parse_listing output
  = concat (map (listing_step []) (Js.split Js.newline output)).
Proof.
  unfold parse_listing.
  assert (H : ∀ lines acc,
             fold_left listing_step lines acc
             = acc ++ concat (map (listing_step []) lines)).
  { induction lines as [|l lines IH]; intros acc; simpl.
    - by rewrite app_nil_r.
    - rewrite IH, (listing_step_app acc l), app_assoc. reflexivity. }
  apply H.
Qed.

Lemma listing_step_named name kind :
  name ≠ "" → name ≠ "." → name ≠ ".." →
  (if negb (Js.is_empty name) && negb (String.eqb name ".")
      && negb (String.eqb name "..")
   then [] ++ [(name, kind)] else []) = [(name, kind : FileType)].
Proof.
  intros H0 H1 H2.
  apply is_empty_false in H0. apply String.eqb_neq in H1, H2.
  rewrite H0, H1, H2. reflexivity.
Qed.

(** C7.  [readDirectory] parses the trimmed output line by line: the result
    is the concatenation of what each line yields, and it is empty for empty
    output.  A line that ends in [/] yields a [Directory], in [@] a
    [SymbolicLink], in [*], [|] or [=] a [File], each under the name without
    the indicator; a line with no indicator yields a [File] under the whole
    line; the empty line, [.] and [..] (with or without the directory
    indicator) yield nothing. *)
Theorem readDirectory_parsing :
  (∀ st u sp reply w,
     let name := fst (parseUri u) in
     let p := snd (parseUri u) in
     let output := Js.trim (stdout reply) in
     resolve st name = Some sp →
     exec sp (cmd_ls p) (remote st) = (inr reply, w) →
     ∃ st', readDirectory u st
            = (Ok (concat (map (listing_step []) (Js.split Js.newline output))), st')
            ∧ (output = "" → readDirectory u st = (Ok [], st'))
            ∧ effects st st' [(name, cmd_ls p)] w [])
  ∧ (∀ entry, entry ≠ "" → entry ≠ "." → entry ≠ ".." →
       listing_step [] (entry +:+ "/") = [(entry, Directory)]
       ∧ listing_step [] (entry +:+ "@") = [(entry, SymbolicLink)]
       ∧ listing_step [] (entry +:+ "*") = [(entry, File)]
       ∧ listing_step [] (entry +:+ "|") = [(entry, File)]
       ∧ listing_step [] (entry +:+ "=") = [(entry, File)]
       ∧ (Js.endsWith entry "/" = false → Js.endsWith entry "@" = false →
          Js.endsWith entry "*" = false → Js.endsWith entry "|" = false →
          Js.endsWith entry "=" = false →
          listing_step [] entry = [(entry, File)]))
  ∧ listing_step [] "" = []
  ∧ listing_step [] "." = [] ∧ listing_step [] ".." = []
  ∧ listing_step [] "./" = [] ∧ listing_step [] "../" = [].
Proof.
  split; [|split; [|by repeat split]].
  - intros st u sp reply w name p output Hsp Hexec.
    destruct (getSprite_some _ _ _ Hsp) as (st1 & Hget & E1).
    rewrite <- (effects_remote _ _ _ _ _ E1) in Hexec.
    destruct (run_reply st1 name _ _ _ _ Hexec) as (st2 & Hrun & E2).
    assert (Hcall : readDirectory u st
              = (Ok (concat (map (listing_step []) (Js.split Js.newline output))), st2)).
    { unfold readDirectory. fold name p. change (parseUri u) with (name, p).
      cbv beta iota. rewrite (bind_ok _ _ _ _ _ Hget).
      unfold try_catch. rewrite (bind_ok _ _ _ _ _ Hrun). cbv zeta. unfold toStr.
      fold output. destruct (Js.is_empty output) eqn:He.
      - apply is_empty_true in He. rewrite He. reflexivity.
      - unfold ret. by rewrite parse_listing_lines. }
    exists st2. split; [exact Hcall|]. split.
    + intros He. rewrite Hcall, He. reflexivity.
    + exact (effects_trans _ _ _ _ _ _ _ _ _ E1 E2).
  - intros entry H0 H1 H2.
    unfold listing_step.
    rewrite !is_empty_snoc, !endsWith_snoc, !slice_init_snoc.
    cbn [Ascii.eqb Bool.eqb orb].
    rewrite !listing_step_named by done.
    repeat split.
    intros -> -> -> -> ->. cbn [orb].
    rewrite (proj2 (is_empty_false entry) H0).
    apply String.eqb_neq in H1, H2. rewrite H1, H2. reflexivity.
Qed.
End Steps.

(** ** The command lines an operation sends *)

Section Sent.
Context {W : Type}.
Implicit Types (st : St W).

Lemma sends_only_refl st allowed : sends_only st st allowed.
Proof. exists []. by rewrite app_nil_r. Qed.

Lemma sends_only_trans st st1 st2 allowed :
  sends_only st st1 allowed → sends_only st1 st2 allowed → sends_only st st2 allowed.
Proof.
  intros (l1 & H1 & F1) (l2 & H2 & F2). exists (l1 ++ l2).
  rewrite H2, H1, app_assoc. split; [done|]. by apply Forall_app.
Qed.

Lemma getSprite_sends st name allowed :
  sends_only st (snd (getSprite name st)) allowed.
Proof.
  unfold getSprite. destruct (client st); [|apply sends_only_refl].
  destruct (spriteCache st !! name); simpl; exists []; by rewrite app_nil_r.
Qed.

Lemma run_sends st name sp cmd allowed :
  cmd ∈ allowed → sends_only st (snd (run name sp cmd st)) allowed.
Proof.
  intros H. unfold run. destruct (exec sp cmd (remote st)) as [[m|r] w]; simpl;
    exists [(name, cmd)]; (split; [done|]); by repeat constructor.
Qed.

Lemma fire_sends st evs allowed : sends_only st (snd (fire evs st)) allowed.
Proof. exists []. simpl. by rewrite app_nil_r. Qed.

Lemma bind_sends {A B} (m : M W A) (k : A → M W B) st allowed :
  sends_only st (snd (m st)) allowed →
  (∀ a st1, sends_only st1 (snd (k a st1)) allowed) →
  sends_only st (snd (bind m k st)) allowed.
Proof.
  intros Hm Hk. unfold bind. destruct (m st) as [[a|e] st1]; simpl in *; [|done].
  eapply sends_only_trans; [exact Hm|apply Hk].
Qed.

Lemma try_catch_sends {A} (m : M W A) h st allowed :
  sends_only st (snd (m st)) allowed →
  (∀ e st1, snd (h e st1) = st1) →
  sends_only st (snd (try_catch m h st)) allowed.
Proof.
  intros Hm Hh. unfold try_catch. destruct (m st) as [[a|e] st1]; simpl in *; [done|].
  by rewrite Hh.
Qed.

Lemma rethrow_fs_state {A} e st : snd (@rethrow_fs W A e st) = st.
Proof. by destruct e. Qed.

Lemma rethrow_unavailable_state {A} e st : snd (@rethrow_unavailable W A e st) = st.
Proof. done. Qed.

Ltac in_table :=
  unfold command_lines, interpolations; cbn [map fst];
  repeat first [apply list_elem_of_here | apply list_elem_of_further].

Lemma stat_sends st u q content flags :
  sends_only st (snd (stat u st)) (command_lines (snd (parseUri u)) q content flags).
Proof.
  unfold stat. destruct (parseUri u) as [name p]. cbn [snd].
  apply bind_sends; [apply getSprite_sends|]. intros sp st1.
  apply try_catch_sends; [|apply rethrow_fs_state].
  apply bind_sends; [apply run_sends; in_table|]. intros r st2.
  cbv zeta. destruct (_ || _); [apply sends_only_refl|].
  apply bind_sends; [apply sends_only_refl|]. intros; apply sends_only_refl.
Qed.

Lemma readDirectory_sends st u q content flags :
  sends_only st (snd (readDirectory u st)) (command_lines (snd (parseUri u)) q content flags).
Proof.
  unfold readDirectory. destruct (parseUri u) as [name p]. cbn [snd].
  apply bind_sends; [apply getSprite_sends|]. intros sp st1.
  apply try_catch_sends; [|apply rethrow_unavailable_state].
  apply bind_sends; [apply run_sends; in_table|]. intros r st2.
  cbv zeta. destruct (Js.is_empty _); apply sends_only_refl.
Qed.

Lemma readFile_sends st u q content flags :
  sends_only st (snd (readFile u st)) (command_lines (snd (parseUri u)) q content flags).
Proof.
  unfold readFile. destruct (parseUri u) as [name p]. cbn [snd].
  apply bind_sends; [apply getSprite_sends|]. intros sp st1.
  apply try_catch_sends; [|apply rethrow_fs_state].
  apply bind_sends; [apply run_sends; in_table|]. intros r st2.
  cbv zeta. destruct (Js.is_empty _).
  - apply bind_sends; [apply run_sends; in_table|]. intros r' st3.
    destruct (String.eqb _ _); apply sends_only_refl.
  - destruct (Base64.atob _); apply sends_only_refl.
Qed.

Lemma writeFile_sends st u b options q flags :
  sends_only st (snd (writeFile u b options st))
    (command_lines (snd (parseUri u)) q (to_base64 b) flags).
Proof.
  unfold writeFile. destruct (parseUri u) as [name p]. cbn [snd].
  apply bind_sends; [apply getSprite_sends|]. intros sp st1.
  apply try_catch_sends; [|apply rethrow_fs_state].
  apply bind_sends; [apply run_sends; in_table|]. intros r st2.
  cbv zeta. destruct (_ && _); [apply sends_only_refl|].
  destruct (_ && _); [apply sends_only_refl|].
  apply bind_sends; [apply run_sends; in_table|]. intros _ st3.
  apply bind_sends; [apply run_sends; in_table|]. intros _ st4.
  apply fire_sends.
Qed.

Lemma createDirectory_sends st u q content flags :
  sends_only st (snd (createDirectory u st))
    (command_lines (snd (parseUri u)) q content flags).
Proof.
  unfold createDirectory. destruct (parseUri u) as [name p]. cbn [snd].
  apply bind_sends; [apply getSprite_sends|]. intros sp st1.
  apply try_catch_sends; [|apply rethrow_unavailable_state].
  apply bind_sends; [apply run_sends; in_table|]. intros r st2.
  destruct (_ && _); [apply sends_only_refl|apply fire_sends].
Qed.

Lemma delete_sends st u (recursive : bool) q content :
  sends_only st (snd (delete u recursive st))
    (command_lines (snd (parseUri u)) q content (if recursive then "-rf" else "-f")).
Proof.
  unfold delete. destruct (parseUri u) as [name p]. cbn [snd].
  apply bind_sends; [apply getSprite_sends|]. intros sp st1.
  apply try_catch_sends; [|apply rethrow_unavailable_state].
  cbv zeta.
  apply bind_sends; [apply run_sends; in_table|]. intros _ st2.
  apply fire_sends.
Qed.

Lemma rename_sends st oldUri newUri overwrite content flags :
  sends_only st (snd (rename oldUri newUri overwrite st))
    (command_lines (snd (parseUri oldUri)) (snd (parseUri newUri)) content flags).
Proof.
  unfold rename. destruct (parseUri oldUri) as [name p], (parseUri newUri) as [name' q].
  cbn [snd]. destruct (negb _); [apply sends_only_refl|].
  apply bind_sends; [apply getSprite_sends|]. intros sp st1.
  apply try_catch_sends; [|apply rethrow_fs_state].
  apply bind_sends.
  - destruct (negb overwrite); [|apply sends_only_refl].
    apply bind_sends; [apply run_sends; in_table|]. intros r st2.
    destruct (String.eqb _ _); apply sends_only_refl.
  - intros _ st2.
    apply bind_sends; [apply run_sends; in_table|]. intros _ st3.
    apply fire_sends.
Qed.
End Sent.

(** ** Interpolation of paths *)

Lemma plain_substring s n : Shell.plain s = true → Shell.plain (String.substring 0 n s) = true.
Proof.
  revert n. induction s as [|c s IH]; intros [|n] H; simpl; try done.
  simpl in H. apply andb_true_iff in H as [-> H]. simpl. by apply IH.
Qed.

Lemma plain_parentDir p : Shell.plain p = true → Shell.plain (parentDir p) = true.
Proof.
  intros H. unfold parentDir, Js.str_or, Js.substring0.
  destruct (Js.is_empty _); [reflexivity|]. by apply plain_substring.
Qed.

Lemma read_back_of_verbatim cmd pre arg suf :
  verbatim (cmd, pre, arg, suf) → Shell.plain arg = true →
  read_back (cmd, pre, arg, suf).
Proof. unfold verbatim, read_back. intros -> H. by apply argument_after_plain. Qed.

Lemma interpolations_verbatim p q content flags :
  Forall verbatim (interpolations p q content flags).
Proof.
  unfold interpolations, verbatim, cmd_stat, cmd_ls, cmd_base64, cmd_test_f,
    cmd_exists_or_not, cmd_mkdir, cmd_write, cmd_rm, cmd_test_e, cmd_mv.
  repeat constructor; rewrite ?append_assoc, ?append_empty_r; reflexivity.
Qed.

(** C1, as amended.  Every command line a translator sends is one of the
    table [interpolations], built from the paths of its locators.  The
    translators perform no escaping: each of these command lines holds the
    path as it is between double quotes.  For paths that hold no double
    quote, backquote, dollar sign or backslash, the shell reads each quoted
    argument back as exactly the path and continues with the rest of the
    command line as the translator wrote it. *)
Theorem paths_are_interpolated_verbatim :
  (∀ W (st : St W) u newUri b options (recursive overwrite : bool),
     let table :=
       command_lines (snd (parseUri u)) (snd (parseUri newUri)) (to_base64 b)
         (if recursive then "-rf" else "-f") in
     sends_only st (snd (stat u st)) table
     ∧ sends_only st (snd (readDirectory u st)) table
     ∧ sends_only st (snd (readFile u st)) table
     ∧ sends_only st (snd (writeFile u b options st)) table
     ∧ sends_only st (snd (createDirectory u st)) table
     ∧ sends_only st (snd (delete u recursive st)) table
     ∧ sends_only st (snd (rename u newUri overwrite st)) table)
  ∧ (∀ p q content flags, Forall verbatim (interpolations p q content flags))
  ∧ (∀ p q content flags,
       Shell.plain p = true → Shell.plain q = true →
       Forall read_back (interpolations p q content flags)).
Proof.
  split; [|split; [exact interpolations_verbatim|]].
  - intros W st u newUri b options recursive overwrite table. unfold table.
    repeat split.
    + apply stat_sends.
    + apply readDirectory_sends.
    + apply readFile_sends.
    + apply writeFile_sends.
    + apply createDirectory_sends.
    + apply delete_sends.
    + apply rename_sends.
  - intros p q content flags Hp Hq.
    pose proof (plain_parentDir p Hp) as Hd.
    pose proof (interpolations_verbatim p q content flags) as Hv.
    unfold interpolations in *.
    repeat match goal with
           | H : Forall verbatim (_ :: _) |- _ => apply Forall_cons in H as [? H]
           end.
    repeat constructor; by apply read_back_of_verbatim.
Qed.

(** C1 as stated fails: with a dollar sign in the path, the quoted argument
    of the [stat] command starts an expansion, so the shell does not read it
    back as the path. *)
Lemma quoting_counterexample :
  ¬ (∀ p q content flags, Forall read_back (interpolations p q content flags)).
Proof.
  intros H. specialize (H Sample.evil_path "/tmp/b" "aGk=" "-f").
  apply Forall_cons in H as [H _]. vm_compute in H. discriminate H.
Qed.


(** ** Paths: the provider's parent directory and the remote's ancestors *)



Lemma lastIndexOf_app_sep d n c :
  Js.lastIndexOf n c = (-1)%Z →
  Js.lastIndexOf (d +:+ String c n) c = Z.of_nat (String.length d).
Proof.
  intros Hn. induction d as [|x d IH]; simpl.
  - rewrite Hn. simpl. by rewrite Ascii.eqb_refl.
  - rewrite IH. destruct (0 <=? Z.of_nat (String.length d))%Z eqn:E; [lia|].
    apply Z.leb_gt in E. lia.
Qed.

Lemma substring_prefix d r : String.substring 0 (String.length d) (d +:+ r) = d.
Proof.
  induction d as [|x d IH]; simpl; [by destruct r|]. by rewrite IH.
Qed.

Lemma lastIndexOf_ge s c : (-1 ≤ Js.lastIndexOf s c)%Z.
Proof.
  induction s as [|d r IH]; simpl; [lia|].
  destruct (0 <=? Js.lastIndexOf r c)%Z eqn:E; [apply Z.leb_le in E; lia|].
  destruct (Ascii.eqb d c); lia.
Qed.

(** A path has no slash, or is a directory part, a slash and a name without
    slash. *)
Lemma last_slash p :
  Js.lastIndexOf p "/" = (-1)%Z
  ∨ ∃ q x, p = q +:+ String "/" x ∧ Js.lastIndexOf x "/" = (-1)%Z.
Proof.
  induction p as [|d r IH]; [by left|].
  destruct IH as [Hr | (q & x & -> & Hx)].
  - destruct (Ascii.eqb d "/") eqn:E.
    + apply Ascii.eqb_eq in E as ->. right. by exists "", r.
    + left. simpl. rewrite Hr, E. reflexivity.
  - right. by exists (String d q), x.
Qed.

Lemma parentDir_split q x :
  Js.lastIndexOf x "/" = (-1)%Z →
  parentDir (q +:+ String "/" x) = Remote.dir_name q.
Proof.
  intros Hx. unfold parentDir, Js.substring0.
  rewrite lastIndexOf_app_sep by done. rewrite Nat2Z.id, substring_prefix.
  by destruct q.
Qed.

Lemma parentDir_no_slash p : Js.lastIndexOf p "/" = (-1)%Z → parentDir p = "/".
Proof. intros H. unfold parentDir, Js.substring0. rewrite H. by destruct p. Qed.

Lemma cuts_app pre q x :
  Remote.cuts pre (q +:+ String "/" x)
  = Remote.cuts pre q ++ Remote.dir_name (pre +:+ q) :: Remote.cuts (pre +:+ q +:+ "/") x.
Proof.
  revert pre. induction q as [|c q IH]; intros pre.
  - simpl. by rewrite !append_empty_r.
  - cbn [String.append Remote.cuts]. 
    assert (E : ∀ t, (pre +:+ String c "") +:+ t = pre +:+ String c t).
    { intros t. by rewrite append_assoc. }
    destruct (Ascii.eqb c "/") eqn:Ec.
    + apply Ascii.eqb_eq in Ec as ->. rewrite IH, !E. reflexivity.
    + rewrite IH, !E. reflexivity.
Qed.

Lemma cuts_no_slash pre x : Js.lastIndexOf x "/" = (-1)%Z → Remote.cuts pre x = [].
Proof.
  revert pre. induction x as [|c x IH]; intros pre H; [done|].
  simpl in H. pose proof (lastIndexOf_ge x "/").
  destruct (0 <=? Js.lastIndexOf x "/")%Z eqn:E; [apply Z.leb_le in E; lia|].
  apply Z.leb_gt in E. simpl.
  destruct (Ascii.eqb c "/"); [done|]. apply IH. lia.
Qed.

Lemma cuts_child q x :
  Js.lastIndexOf x "/" = (-1)%Z →
  Remote.cuts "" (q +:+ String "/" x) = Remote.cuts "" q ++ [Remote.dir_name q].
Proof. intros Hx. rewrite cuts_app. simpl. by rewrite (cuts_no_slash _ x). Qed.

Lemma cuts_length pre s a :
  a ∈ Remote.cuts pre s →
  a = "/" ∨ (String.length a < String.length pre + String.length s)%nat.
Proof.
  revert pre. induction s as [|c s IH]; intros pre; simpl; [by intros []%elem_of_nil|].
  assert (L : ∀ t, String.length (pre +:+ t) = (String.length pre + String.length t)%nat).
  { intros t. induction pre as [|d pre IHp]; simpl; [done|]. by rewrite IHp. }
  destruct (Ascii.eqb c "/").
  - intros [->|H]%elem_of_cons.
    + destruct pre; [by left|]. right. simpl. lia.
    + apply IH in H as [H|H]; [by left|]. right. rewrite L in H. simpl in H. lia.
  - intros H. apply IH in H as [H|H]; [by left|]. right. rewrite L in H. simpl in H. lia.
Qed.

Lemma eqb_root p : String.eqb p "/" = false ↔ p ≠ "/".
Proof. by rewrite String.eqb_neq. Qed.

Lemma not_own_ancestor p : p ∉ Remote.ancestors p.
Proof.
  unfold Remote.ancestors. destruct (String.eqb p "/") eqn:E; [by intros []%elem_of_nil|].
  apply eqb_root in E. intros [H|H]%cuts_length; [done|]. simpl in H. lia.
Qed.

(** The names of a path that ends in a slash include the empty name. *)
Lemma names_trailing r cur :
  last (list_ascii_of_string r) = Some "/"%char → "" ∈ Remote.names cur r.
Proof.
  revert cur. induction r as [|c r IH]; intros cur; [done|].
  destruct r as [|d r].
  - simpl. intros [= ->]. simpl. set_solver.
  - intros H. change (last (list_ascii_of_string (String d r)) = Some "/"%char) in H.
    cbn [Remote.names]. destruct (Ascii.eqb c "/").
    + apply elem_of_cons. right. by apply IH.
    + by apply IH.
Qed.

Lemma forallb_proper_nonempty l : forallb Remote.proper l = true → "" ∉ l.
Proof.
  induction l as [|n l IH]; simpl; [by intros _ []%elem_of_nil|].
  intros [Hn Hl]%andb_true_iff [<-|Hin]%elem_of_cons; [done|]. by apply IH.
Qed.

(** What a normal-form path other than the root looks like. *)
Lemma canonical_shape p :
  Remote.canonical p = true → p ≠ "/" →
  Remote.ends_in_slash p = false
  ∧ ∃ q x, p = q +:+ String "/" x ∧ Js.lastIndexOf x "/" = (-1)%Z ∧ q ≠ "/".
Proof.
  intros Hc Hne. destruct p as [|c r]; [done|]. simpl in Hc.
  apply andb_true_iff in Hc as [Hc Hn]. apply Ascii.eqb_eq in Hc as ->.
  destruct r as [|d r]; [done|]. simpl in Hn. split.
  - unfold Remote.ends_in_slash.
    change (list_ascii_of_string (String "/" (String d r)))
      with ("/"%char :: list_ascii_of_string (String d r)).
    change (last ("/"%char :: list_ascii_of_string (String d r)))
      with (last (list_ascii_of_string (String d r))).
    destruct (last (list_ascii_of_string (String d r))) as [e|] eqn:El; [|done].
    destruct (Ascii.eqb e "/") eqn:Ee; [|done]. apply Ascii.eqb_eq in Ee as ->.
    apply (names_trailing _ "") in El. by apply forallb_proper_nonempty in Hn.
  - destruct (last_slash (String "/" (String d r))) as [H | (q & x & Hp & Hx)].
    + simpl in H. pose proof (lastIndexOf_ge (String d r) "/").
      simpl in H0. destruct (0 <=? _)%Z eqn:E in H; [apply Z.leb_le in E|]; lia.
    + exists q, x. split; [done|]. split; [done|]. intros ->.
      simpl in Hp. injection Hp as -> ->. by simpl in Hn.
Qed.

(** For a normal-form path other than the root, the directories that
    [mkdir -p] of the provider's parent directory makes are the ancestors of
    the path. *)
Lemma ancestors_parent p :
  Remote.canonical p = true → p ≠ "/" →
  Remote.ancestors (parentDir p) ++ [parentDir p] = Remote.ancestors p.
Proof.
  intros Hc Hne. destruct (canonical_shape p Hc Hne) as (_ & q & x & -> & Hx & Hq).
  rewrite parentDir_split by done. unfold Remote.ancestors at 2.
  apply eqb_root in Hne. rewrite Hne, cuts_child by done.
  f_equal. unfold Remote.ancestors. destruct q as [|c q]; [done|]. simpl Remote.dir_name.
  apply eqb_root in Hq. by rewrite Hq.
Qed.

Lemma endsWith_ends_in_slash p : Js.endsWith p "/" = Remote.ends_in_slash p.
Proof.
  unfold Remote.ends_in_slash. induction p as [|c [|d r] IH]; [done..|].
  change (Js.endsWith (String c (String d r)) "/") with (Js.endsWith (String d r) "/").
  by rewrite IH.
Qed.



(** ** The operations over the model of the remote side *)

Lemma files_insert w name fs : Remote.files (<[name := fs]> w) name = fs.
Proof. unfold Remote.files. by rewrite lookup_insert_eq. Qed.

Lemma files_insert_ne (w : gmap string (gmap string Remote.node)) name n fs :
  name ≠ n → Remote.files (<[name := fs]> w) n = Remote.files w n.
Proof. intros H. unfold Remote.files. by rewrite lookup_insert_ne. Qed.

Lemma model_exec name cmd w c :
  Remote.parse cmd = Some c →
  exec (Remote.handle name) cmd w
  = (inr (fst (Remote.eval c (Remote.files w name))),
     <[name := snd (Remote.eval c (Remote.files w name))]> w).
Proof.
  intros H. simpl. unfold Remote.sh. rewrite H.
  by destruct (Remote.eval c (Remote.files w name)).
Qed.

Lemma attached_effects st st' c w e :
  Remote.attached st → effects st st' c w e → Remote.attached st'.
Proof. intros Ha (_ & _ & _ & Hs & _) n. by rewrite Hs. Qed.

Lemma model_run (st : St (gmap string (gmap string Remote.node))) name cmd c :
  Remote.parse cmd = Some c →
  let fs := Remote.files (remote st) name in
  ∃ st', run name (Remote.handle name) cmd st = (Ok (fst (Remote.eval c fs)), st')
         ∧ effects st st' [(name, cmd)] (<[name := snd (Remote.eval c fs)]> (remote st)) [].
Proof.
  intros Hc fs.
  exact (run_reply st name _ _ _ _ (model_exec name cmd (remote st) c Hc)).
Qed.

Lemma files_after (st st' : St (gmap string (gmap string Remote.node))) name c cmds evs :
  effects st st' cmds (<[name := snd (Remote.eval c (Remote.files (remote st) name))]> (remote st)) evs →
  Remote.files (remote st') name = snd (Remote.eval c (Remote.files (remote st) name))
  ∧ ∀ n, n ≠ name → Remote.files (remote st') n = Remote.files (remote st) n.
Proof.
  intros E. rewrite (effects_remote _ _ _ _ _ E). split; [apply files_insert|].
  intros n Hn. by apply files_insert_ne.
Qed.

(** *** The table after [mkdir -p] and after the redirection *)

Lemma existsb_false_elem {A} (f : A → bool) l :
  existsb f l = false ↔ ∀ a, a ∈ l → f a = false.
Proof.
  induction l as [|x l IH]; simpl.
  - split; [by intros _ a []%elem_of_nil|done].
  - rewrite orb_false_iff, IH. split.
    + intros [Hx Hl] a [->|Ha]%elem_of_cons; auto.
    + intros H. split; [apply H; left|intros a Ha; apply H; by right].
Qed.

Lemma forallb_true_elem {A} (f : A → bool) l :
  forallb f l = true ↔ ∀ a, a ∈ l → f a = true.
Proof.
  induction l as [|x l IH]; simpl.
  - split; [by intros _ a []%elem_of_nil|done].
  - rewrite andb_true_iff, IH. split.
    + intros [Hx Hl] a [->|Ha]%elem_of_cons; auto.
    + intros H. split; [apply H; left|intros a Ha; apply H; by right].
Qed.

Lemma lookup_make_dirs_in dirs fs k :
  k ∈ dirs → Remote.make_dirs dirs fs !! k = Some Remote.RDir.
Proof.
  induction dirs as [|d dirs IH]; [by intros []%elem_of_nil|].
  simpl. destruct (decide (d = k)) as [->|Hd]; [by rewrite lookup_insert_eq|].
  intros [->|Hk]%elem_of_cons; [done|]. rewrite lookup_insert_ne by done. by apply IH.
Qed.

Lemma lookup_make_dirs_notin dirs fs k :
  k ∉ dirs → Remote.make_dirs dirs fs !! k = fs !! k.
Proof.
  induction dirs as [|d dirs IH]; [done|].
  intros [Hd Hk]%not_elem_of_cons. simpl. rewrite lookup_insert_ne by done. by apply IH.
Qed.

(** Making directories that are all there already changes nothing. *)
Lemma make_dirs_again dirs fs :
  (∀ a, a ∈ dirs → fs !! a = Some Remote.RDir) → Remote.make_dirs dirs fs = fs.
Proof.
  intros H. apply map_eq. intros k. destruct (decide (k ∈ dirs)) as [Hk|Hk].
  - rewrite lookup_make_dirs_in by done. symmetry. by apply H.
  - by apply lookup_make_dirs_notin.
Qed.

Lemma writable_parts fs p :
  Remote.writable fs p = true ↔
  Remote.canonical p = true ∧ p ≠ "/" ∧ Remote.is_dir fs p = false
  ∧ ∀ a, a ∈ Remote.ancestors p → Remote.is_file fs a = false.
Proof.
  unfold Remote.writable.
  rewrite !andb_true_iff, !negb_true_iff, eqb_root, existsb_false_elem. tauto.
Qed.

(** What [writeFile] asks [mkdir -p] for, at a path where a file can be
    put: all its ancestors, and they are made. *)
Lemma mkdir_parent fs p :
  Remote.writable fs p = true →
  Remote.eval (Remote.MkdirP (parentDir p)) fs
  = (Remote.out "", Remote.make_dirs (Remote.ancestors p) fs).
Proof.
  intros (Hc & Hne & _ & Hanc)%writable_parts. simpl. unfold Remote.creatable.
  rewrite ancestors_parent by done.
  by apply existsb_false_elem in Hanc as ->.
Qed.

Lemma write_on_dirs fs p b :
  Remote.writable fs p = true →
  Remote.eval (Remote.WriteB64 (to_base64 b) p) (Remote.make_dirs (Remote.ancestors p) fs)
  = (Remote.out "", <[p := Remote.RFile b]> (Remote.make_dirs (Remote.ancestors p) fs)).
Proof.
  intros (Hc & Hne & Hnd & Hanc)%writable_parts. simpl.
  assert (Hp : Js.is_empty p = false) by (by destruct p).
  rewrite Hp. destruct (canonical_shape p Hc Hne) as [-> _].
  unfold Remote.is_dir at 1. rewrite lookup_make_dirs_notin by apply not_own_ancestor.
  unfold Remote.is_dir in Hnd. rewrite Hnd. simpl.
  assert (Hall : forallb (Remote.is_dir (Remote.make_dirs (Remote.ancestors p) fs))
                   (Remote.ancestors p) = true).
  { apply forallb_true_elem. intros a Ha. unfold Remote.is_dir.
    by rewrite lookup_make_dirs_in. }
  rewrite Hall. simpl. by rewrite decode_to_base64.
Qed.



(** *** The operations *)

Lemma writeFile_flow (st : St (gmap string (gmap string Remote.node))) u b options :
  let name := fst (parseUri u) in
  let p := snd (parseUri u) in
  let fs := Remote.files (remote st) name in
  let fs1 := snd (Remote.eval (Remote.MkdirP (parentDir p)) fs) in
  let fs2 := snd (Remote.eval (Remote.WriteB64 (to_base64 b) p) fs1) in
  Remote.attached st →
  Shell.plain p = true →
  (if fs !! p is Some _ then overwrite options else create options) = true →
  ∃ st', writeFile u b options st = (Ok tt, st')
         ∧ Remote.attached st'
         ∧ Remote.files (remote st') name = fs2
         ∧ (∀ n, n ≠ name → Remote.files (remote st') n = Remote.files (remote st) n)
         ∧ emitted st'
           = emitted st ++ [[ {| change := if fs !! p is Some _ then Changed else Created;
                                 uri := u |} ]].
Proof.
  intros name p fs fs1 fs2 Hatt Hp Hopt.
  destruct (getSprite_some _ _ _ (Hatt name)) as (st1 & Hget & E1).
  assert (F1 : ∀ n, Remote.files (remote st1) n = Remote.files (remote st) n)
    by (intros n; by rewrite (effects_remote _ _ _ _ _ E1)).
  destruct (model_run st1 name _ _ (recognise_exists_or_not p Hp)) as (st2 & Hrun2 & E2).
  destruct (files_after _ _ _ _ _ _ E2) as [F2 F2'].
  rewrite (F1 name) in Hrun2, F2. fold fs in Hrun2, F2.
  set (exists_ := String.eqb (Js.trim (stdout (fst (Remote.eval (Remote.TestE p true) fs)))) "EXISTS").
  assert (Hex : exists_ = if fs !! p is Some _ then true else false).
  { unfold exists_. simpl. by destruct (fs !! p). }
  assert (F2e : Remote.files (remote st2) name = fs).
  { rewrite F2. simpl. by destruct (fs !! p). }
  destruct (model_run st2 name _ _ (recognise_mkdir _ (plain_parentDir p Hp)))
    as (st3 & Hrun3 & E3).
  destruct (files_after _ _ _ _ _ _ E3) as [F3 F3'].
  rewrite F2e in F3. fold fs1 in F3.
  destruct (model_run st3 name _ _ (recognise_write (to_base64 b) p (encode_plain _) Hp))
    as (st4 & Hrun4 & E4).
  destruct (files_after _ _ _ _ _ _ E4) as [F4 F4'].
  rewrite F3 in F4. fold fs2 in F4.
  destruct (fire_events st4 [ {| change := if exists_ then Changed else Created; uri := u |} ])
    as (st5 & Hfire & E5).
  exists st5. split; [|split; [|split; [|split]]].
  - unfold writeFile. fold name p. change (parseUri u) with (name, p). cbv beta iota.
    rewrite (bind_ok _ _ _ _ _ Hget).
    rewrite (try_catch_ok _ _ _ tt st5); [done|].
    rewrite (bind_ok _ _ _ _ _ Hrun2). cbv zeta. unfold toStr. fold exists_.
    assert (Hgo : exists_ && negb (overwrite options) = false
                  ∧ negb exists_ && negb (create options) = false).
    { rewrite Hex. destruct (fs !! p); simpl; by rewrite Hopt. }
    destruct Hgo as [-> ->].
    rewrite (bind_ok _ _ _ _ _ Hrun3), (bind_ok _ _ _ _ _ Hrun4).
    exact Hfire.
  - pose proof (attached_effects _ _ _ _ _ Hatt E1) as A1.
    pose proof (attached_effects _ _ _ _ _ A1 E2) as A2.
    pose proof (attached_effects _ _ _ _ _ A2 E3) as A3.
    pose proof (attached_effects _ _ _ _ _ A3 E4) as A4.
    exact (attached_effects _ _ _ _ _ A4 E5).
  - by rewrite (effects_remote _ _ _ _ _ E5).
  - intros n Hn. rewrite (effects_remote _ _ _ _ _ E5).
    by rewrite F4', F3', F2', F1.
  - destruct E5 as (_ & _ & -> & _). destruct E4 as (_ & _ & -> & _).
    destruct E3 as (_ & _ & -> & _). destruct E2 as (_ & _ & -> & _).
    destruct E1 as (_ & _ & -> & _). rewrite !app_nil_r, Hex.
    by destruct (fs !! p).
Qed.

Lemma writeFile_model_detail (st : St (gmap string (gmap string Remote.node))) u b options :
  let name := fst (parseUri u) in
  let p := snd (parseUri u) in
  let fs := Remote.files (remote st) name in
  Remote.attached st →
  Shell.plain p = true →
  Remote.writable fs p = true →
  (if fs !! p is Some _ then overwrite options else create options) = true →
  ∃ st', writeFile u b options st = (Ok tt, st')
         ∧ Remote.attached st'
         ∧ Remote.files (remote st') name
           = <[p := Remote.RFile b]> (Remote.make_dirs (Remote.ancestors p) fs)
         ∧ (∀ n, n ≠ name → Remote.files (remote st') n = Remote.files (remote st) n)
         ∧ emitted st'
           = emitted st ++ [[ {| change := if fs !! p is Some _ then Changed else Created;
                                 uri := u |} ]].
Proof.
  intros name p fs Hatt Hp Hw Hopt.
  destruct (writeFile_flow st u b options Hatt Hp Hopt)
    as (st' & Hcall & Hatt' & Hfiles & Hrest).
  exists st'. split; [done|]. split; [done|]. split; [|done].
  fold name p fs in Hfiles. rewrite Hfiles.
  rewrite mkdir_parent by done. cbn [snd]. by rewrite write_on_dirs.
Qed.

Lemma readFile_model st u b :
  let name := fst (parseUri u) in
  let p := snd (parseUri u) in
  Remote.attached st →
  Shell.plain p = true →
  Remote.files (remote st) name !! p = Some (Remote.RFile b) →
  ∃ st', readFile u st = (Ok b, st').
Proof.
  intros name p Hatt Hp Hfile.
  destruct (getSprite_some _ _ _ (Hatt name)) as (st1 & Hget & E1).
  pose proof (model_exec name _ (remote st1) _ (recognise_base64 p Hp)) as X1.
  rewrite (effects_remote _ _ _ _ _ E1) in X1 at 2 3.
  destruct (run_reply st1 name _ _ _ _ X1) as (st2 & Hrun2 & E2).
  simpl in Hrun2. rewrite Hfile in Hrun2. simpl in Hrun2.
  assert (Hfs2 : Remote.files (remote st2) name !! p = Some (Remote.RFile b)).
  { rewrite (effects_remote _ _ _ _ _ E2), files_insert. simpl. by rewrite Hfile. }
  unfold readFile. fold name p. change (parseUri u) with (name, p). cbv beta iota.
  rewrite (bind_ok _ _ _ _ _ Hget).
  destruct (Js.is_empty (to_base64 b)) eqn:Hempty.
  - (* an empty file: the follow-up check answers *)
    pose proof (model_exec name _ (remote st2) _ (recognise_test_f p Hp)) as X2.
    destruct (run_reply st2 name _ _ _ _ X2) as (st3 & Hrun3 & E3).
    simpl in Hrun3. rewrite Hfs2 in Hrun3. simpl in Hrun3.
    exists st3. apply try_catch_fs; [|done].
    rewrite (bind_ok _ _ _ _ _ Hrun2). cbv zeta. unfold toStr. cbn [stdout Remote.out].
    rewrite strip_spaces_base64_output, Hempty.
    rewrite (bind_ok _ _ _ _ _ Hrun3). cbn.
    apply to_base64_empty in Hempty. by rewrite Hempty.
  - exists st2. apply try_catch_fs; [|done].
    rewrite (bind_ok _ _ _ _ _ Hrun2). cbv zeta. unfold toStr. cbn [stdout Remote.out].
    rewrite strip_spaces_base64_output, Hempty.
    pose proof (atob_to_base64 b) as Hb.
    destruct (Base64.atob (to_base64 b)) as [bin|]; [|done].
    simpl in Hb. by injection Hb as ->.
Qed.




(** C8.  On the model of the remote side, with a non-empty directory [/d]:
    [delete] without [recursive] returns successfully and fires a [Deleted]
    event although the directory and its entry are still there; with
    [recursive] it returns successfully, fires one [Deleted] event, and the
    directory and its entry are gone while the sibling [/dx] stays. *)
Theorem delete_on_nonempty_directory :
  let st := Remote.bound Sample.with_dir in
  let plain_rm := delete Sample.dir_uri false st in
  let recursive_rm := delete Sample.dir_uri true st in
  (fst plain_rm = Ok tt
   ∧ emitted (snd plain_rm) = [[ {| change := Deleted; uri := Sample.dir_uri |} ]]
   ∧ issued (snd plain_rm) = [("box1", cmd_rm "-f" "/d")]
   ∧ Remote.files (remote (snd plain_rm)) "box1" !! "/d" = Some Remote.RDir
   ∧ Remote.files (remote (snd plain_rm)) "box1" !! "/d/x"
     = Some (Remote.RFile [Byte.x61]))
  ∧ (fst recursive_rm = Ok tt
     ∧ emitted (snd recursive_rm) = [[ {| change := Deleted; uri := Sample.dir_uri |} ]]
     ∧ issued (snd recursive_rm) = [("box1", cmd_rm "-rf" "/d")]
     ∧ Remote.files (remote (snd recursive_rm)) "box1" !! "/d" = None
     ∧ Remote.files (remote (snd recursive_rm)) "box1" !! "/d/x" = None
     ∧ Remote.files (remote (snd recursive_rm)) "box1" !! "/dx"
       = Some (Remote.RFile [])).
Proof. vm_compute. repeat split. Qed.

(** ** The theorems at sample inputs *)

Lemma paths_are_interpolated_verbatim_witness :
  Shell.plain "/tmp/demo/a.txt" = true ∧ Shell.plain "/tmp/demo/b.txt" = true
  ∧ Forall read_back (interpolations "/tmp/demo/a.txt" "/tmp/demo/b.txt" "aGk=" "-rf").
Proof.
  split; [reflexivity|]. split; [reflexivity|].
  apply (proj2 (proj2 paths_are_interpolated_verbatim)); reflexivity.
Defined.

Lemma rename_across_targets_witness :
  authority Sample.file_uri ≠ authority Sample.other_uri
  ∧ rename Sample.file_uri Sample.other_uri true (Scripted.bound [])
    = (Throw (FsError (NoPermissions "Cannot move files between different Sprites")),
       Scripted.bound []).
Proof.
  split; [discriminate|].
  apply (rename_across_targets (Scripted.bound []) Sample.file_uri Sample.other_uri true).
  discriminate.
Defined.

Lemma writeFile_neither_create_nor_overwrite_witness :
  (∃ st', writeFile Sample.file_uri Sample.hello {| create := false; overwrite := false |}
            (Scripted.bound [Scripted.says (Remote.line "NOTEXISTS")])
          = (Throw (FsError (FileNotFound Sample.file_uri)), st')
          ∧ effects (Scripted.bound [Scripted.says (Remote.line "NOTEXISTS")]) st'
              [("box1", cmd_exists_or_not "/tmp/demo/a.txt")] [] [])
  ∧ (∃ st', writeFile Sample.file_uri Sample.hello {| create := false; overwrite := false |}
            (Scripted.bound [Scripted.says (Remote.line "EXISTS")])
          = (Throw (FsError (FileExists Sample.file_uri)), st')
          ∧ effects (Scripted.bound [Scripted.says (Remote.line "EXISTS")]) st'
              [("box1", cmd_exists_or_not "/tmp/demo/a.txt")] [] []).
Proof.
  split.
  - apply (proj1 (writeFile_neither_create_nor_overwrite
             (Scripted.bound [Scripted.says (Remote.line "NOTEXISTS")])
             Sample.file_uri Sample.hello Scripted.handle
             {| stdout := Remote.line "NOTEXISTS"; stderr := "" |} []
             eq_refl eq_refl)).
    vm_compute. discriminate.
  - apply (proj2 (writeFile_neither_create_nor_overwrite
             (Scripted.bound [Scripted.says (Remote.line "EXISTS")])
             Sample.file_uri Sample.hello Scripted.handle
             {| stdout := Remote.line "EXISTS"; stderr := "" |} []
             eq_refl eq_refl)).
    reflexivity.
Defined.

Lemma stat_failures_witness :
  (∃ st', stat Sample.file_uri (Scripted.bound [Scripted.says (Remote.line "NOTFOUND")])
          = (Throw (FsError (FileNotFound Sample.file_uri)), st')
          ∧ effects (Scripted.bound [Scripted.says (Remote.line "NOTFOUND")]) st'
              [("box1", cmd_stat "/tmp/demo/a.txt")] [] [])
  ∧ (∃ st', stat Sample.file_uri (Scripted.bound [inl "timed out"])
          = (Throw (FsError (Unavailable "timed out")), st')
          ∧ effects (Scripted.bound [inl "timed out"]) st'
              [("box1", cmd_stat "/tmp/demo/a.txt")] [] []).
Proof.
  split.
  - apply (proj1 (stat_failures (Scripted.bound [Scripted.says (Remote.line "NOTFOUND")])
                    Sample.file_uri Scripted.handle [] eq_refl)
             {| stdout := Remote.line "NOTFOUND"; stderr := "" |});
      reflexivity.
  - apply (proj2 (stat_failures (Scripted.bound [inl "timed out"])
                    Sample.file_uri Scripted.handle [] eq_refl) "timed out").
    reflexivity.
Defined.

Lemma delete_is_forced_witness :
  ∃ st', delete Sample.dir_uri true (Scripted.bound [Scripted.says ""])
         = (Ok tt, st')
         ∧ effects (Scripted.bound [Scripted.says ""]) st'
             [("box1", cmd_rm "-rf" "/d")] []
             [[ {| change := Deleted; uri := Sample.dir_uri |} ]].
Proof.
  apply (proj2 (delete_is_forced (Scripted.bound [Scripted.says ""]) Sample.dir_uri true)
           Scripted.handle {| stdout := ""; stderr := "" |} []);
    reflexivity.
Defined.

Lemma rename_without_overwrite_witness :
  (∃ st', rename Sample.file_uri Sample.moved_uri false
            (Scripted.bound [Scripted.says (Remote.line "EXISTS")])
          = (Throw (FsError (FileExists Sample.moved_uri)), st')
          ∧ effects (Scripted.bound [Scripted.says (Remote.line "EXISTS")]) st'
              [("box1", cmd_test_e "/tmp/demo/b.txt")] [] [])
  ∧ (∃ st', rename Sample.file_uri Sample.moved_uri false
            (Scripted.bound [Scripted.says ""; Scripted.says ""])
          = (Ok tt, st')
          ∧ effects (Scripted.bound [Scripted.says ""; Scripted.says ""]) st'
              [("box1", cmd_test_e "/tmp/demo/b.txt");
               ("box1", cmd_mv "/tmp/demo/a.txt" "/tmp/demo/b.txt")] []
              [[ {| change := Deleted; uri := Sample.file_uri |};
                 {| change := Created; uri := Sample.moved_uri |} ]]).
Proof.
  split.
  - apply (proj1 (rename_without_overwrite
             (Scripted.bound [Scripted.says (Remote.line "EXISTS")])
             Sample.file_uri Sample.moved_uri Scripted.handle
             {| stdout := Remote.line "EXISTS"; stderr := "" |} []
             eq_refl eq_refl eq_refl)).
    reflexivity.
  - apply (proj2 (rename_without_overwrite
             (Scripted.bound [Scripted.says ""; Scripted.says ""])
             Sample.file_uri Sample.moved_uri Scripted.handle
             {| stdout := ""; stderr := "" |} [Scripted.says ""]
             eq_refl eq_refl eq_refl)
             ltac:(discriminate) {| stdout := ""; stderr := "" |} []).
    reflexivity.
Defined.

Lemma readFile_empty_output_witness :
  (∃ st', readFile Sample.file_uri
            (Scripted.bound [Scripted.says ""; Scripted.says (Remote.line "EXISTS")])
          = (Ok [], st')
          ∧ effects (Scripted.bound [Scripted.says ""; Scripted.says (Remote.line "EXISTS")]) st'
              [("box1", cmd_base64 "/tmp/demo/a.txt"); ("box1", cmd_test_f "/tmp/demo/a.txt")]
              [] [])
  ∧ (∃ st', readFile Sample.file_uri (Scripted.bound [Scripted.says (Remote.line "aGk=")])
          = (Ok [Byte.x68; Byte.x69], st')
          ∧ effects (Scripted.bound [Scripted.says (Remote.line "aGk=")]) st'
              [("box1", cmd_base64 "/tmp/demo/a.txt")] [] []).
Proof.
  split.
  - apply (proj1 (readFile_empty_output
             (Scripted.bound [Scripted.says ""; Scripted.says (Remote.line "EXISTS")])
             Sample.file_uri Scripted.handle {| stdout := ""; stderr := "" |}
             [Scripted.says (Remote.line "EXISTS")] eq_refl eq_refl)
             eq_refl {| stdout := Remote.line "EXISTS"; stderr := "" |} []).
    reflexivity.
  - apply (proj2 (readFile_empty_output
             (Scripted.bound [Scripted.says (Remote.line "aGk=")])
             Sample.file_uri Scripted.handle
             {| stdout := Remote.line "aGk="; stderr := "" |} [] eq_refl eq_refl)).
    vm_compute. discriminate.
Defined.

Lemma readDirectory_parsing_witness :
  (∃ st', readDirectory Sample.dir_uri
            (Scripted.bound [Scripted.says (Remote.line "src/" +:+ Remote.line "run*"
                                            +:+ Remote.line "notes.txt")])
          = (Ok [("src", Directory); ("run", File); ("notes.txt", File)], st'))
  ∧ listing_step [] "link@" = [("link", SymbolicLink)].
Proof.
  split.
  - destruct (proj1 readDirectory_parsing
             (Scripted.bound [Scripted.says (Remote.line "src/" +:+ Remote.line "run*"
                                             +:+ Remote.line "notes.txt")])
             Sample.dir_uri Scripted.handle
             {| stdout := Remote.line "src/" +:+ Remote.line "run*"
                          +:+ Remote.line "notes.txt"; stderr := "" |} []
             eq_refl eq_refl) as (st' & Hcall & _).
    exists st'. exact Hcall.
  - apply (proj1 (proj2 (proj1 (proj2 (@readDirectory_parsing (list (string + ExecResult)))) "link"
                    ltac:(discriminate) ltac:(discriminate) ltac:(discriminate)))).
Defined.


(** * Further properties of the provider *)

Section Outcomes.
Context {W : Type}.
Implicit Types (st : St W) (sp : Sprite W).

(** X1.  With no client set, every operation fails with [Unavailable] and
    the message of [getSprite], and leaves the state as it was: nothing is
    sent and nothing is fired.  For [rename] this holds when both locators
    name the same target. *)
Theorem operations_need_a_client st u content options (recursive overwrite : bool) newUri :
  client st = None →
  let failure {A} : Res A * St W :=
    (Throw (FsError (Unavailable "Not connected to Sprites API")), st) in
  stat u st = failure
  ∧ readDirectory u st = failure
  ∧ readFile u st = failure
  ∧ writeFile u content options st = failure
  ∧ createDirectory u st = failure
  ∧ delete u recursive st = failure
  ∧ (authority u = authority newUri → rename u newUri overwrite st = failure).
Proof.
  intros Hc failure. unfold failure.
  unfold stat, readDirectory, readFile, writeFile, createDirectory, delete, rename, parseUri.
  cbv beta iota.
  repeat split; try (apply bind_throw, getSprite_none, Hc).
  intros ->. rewrite String.eqb_refl. cbn [negb].
  apply bind_throw, getSprite_none, Hc.
Qed.

(** X2.  [getSprite] memoises: the handle it returns is in the cache
    afterwards, and asking again returns the same handle without changing
    the state.  After [setClient], the first handle for a name comes from the
    new client, whatever the cache held before, and events, remote state and
    command log are kept. *)
Theorem handles_are_cached st name :
  (∀ sp st1, getSprite name st = (Ok sp, st1) →
     spriteCache st1 !! name = Some sp ∧ getSprite name st1 = (Ok sp, st1))
  ∧ (∀ c, ∃ st1,
       getSprite name (snd (setClient c st)) = (Ok (sprite c name), st1)
       ∧ spriteCache st1 = {[ name := sprite c name ]}
       ∧ emitted st1 = emitted st ∧ remote st1 = remote st ∧ issued st1 = issued st).
Proof.
  split.
  - intros sp st1. unfold getSprite.
    destruct (client st) as [c|] eqn:Hc; [|done].
    destruct (spriteCache st !! name) as [sp'|] eqn:Hl.
    + intros H. simplify_eq. unfold getSprite. by rewrite Hc, Hl.
    + intros H. simplify_eq. unfold getSprite. simpl. by rewrite lookup_insert_eq.
  - intros c. eexists. split; [reflexivity|]. simpl. repeat split.
Qed.

Ltac run_all :=
  unfold stat, readDirectory, readFile, writeFile, createDirectory, delete, rename,
    parseUri, bind, try_catch, getSprite, run, fire, date_now, ret, throw,
    rethrow_fs, rethrow_unavailable;
  cbv beta iota zeta;
  repeat (case_match; simplify_eq/=).

(** X3.  The errors an operation can throw: [stat] and [readFile] only
    [FileNotFound] for their locator or [Unavailable]; [writeFile] only
    [FileExists] or [FileNotFound] for its locator or [Unavailable];
    [readDirectory], [createDirectory] and [delete] only [Unavailable];
    [rename] only the cross-target [NoPermissions], [FileExists] for the new
    locator or [Unavailable].  No other error ever escapes. *)
Theorem error_taxonomy st u content options (recursive overwrite : bool) newUri e :
  (fst (stat u st) = Throw e →
     e = FsError (FileNotFound u) ∨ ∃ m, e = FsError (Unavailable m))
  ∧ (fst (readDirectory u st) = Throw e → ∃ m, e = FsError (Unavailable m))
  ∧ (fst (readFile u st) = Throw e →
     e = FsError (FileNotFound u) ∨ ∃ m, e = FsError (Unavailable m))
  ∧ (fst (writeFile u content options st) = Throw e →
     e = FsError (FileExists u) ∨ e = FsError (FileNotFound u)
     ∨ ∃ m, e = FsError (Unavailable m))
  ∧ (fst (createDirectory u st) = Throw e → ∃ m, e = FsError (Unavailable m))
  ∧ (fst (delete u recursive st) = Throw e → ∃ m, e = FsError (Unavailable m))
  ∧ (fst (rename u newUri overwrite st) = Throw e →
     e = FsError (NoPermissions "Cannot move files between different Sprites")
     ∨ e = FsError (FileExists newUri) ∨ ∃ m, e = FsError (Unavailable m)).
Proof.
  repeat split; run_all; intros; simplify_eq/=; eauto.
Qed.

(** X4.  Change events follow success.  [stat], [readDirectory] and
    [readFile] never fire an event.  [writeFile], [createDirectory],
    [delete] and [rename] fire exactly one batch when they return
    successfully ([Created] or [Changed]; [Created]; [Deleted]; [Deleted]
    then [Created]) and none when they fail. *)
Theorem events_follow_success st u content options (recursive overwrite : bool) newUri :
  emitted (snd (stat u st)) = emitted st
  ∧ emitted (snd (readDirectory u st)) = emitted st
  ∧ emitted (snd (readFile u st)) = emitted st
  ∧ (let r := writeFile u content options st in
     match fst r with
     | Ok _ => ∃ kind, (kind = Created ∨ kind = Changed)
                       ∧ emitted (snd r) = emitted st ++ [[ {| change := kind; uri := u |} ]]
     | Throw _ => emitted (snd r) = emitted st
     end)
  ∧ (let r := createDirectory u st in
     emitted (snd r)
     = emitted st ++ match fst r with
                     | Ok _ => [[ {| change := Created; uri := u |} ]]
                     | Throw _ => []
                     end)
  ∧ (let r := delete u recursive st in
     emitted (snd r)
     = emitted st ++ match fst r with
                     | Ok _ => [[ {| change := Deleted; uri := u |} ]]
                     | Throw _ => []
                     end)
  ∧ (let r := rename u newUri overwrite st in
     emitted (snd r)
     = emitted st ++ match fst r with
                     | Ok _ => [[ {| change := Deleted; uri := u |};
                                  {| change := Created; uri := newUri |} ]]
                     | Throw _ => []
                     end).
Proof.
  repeat split; run_all; rewrite ?app_nil_r; eauto.
Qed.

(** X5.  [createDirectory] sends one [mkdir -p].  It fails with
    [Unavailable] carrying the error stream exactly when that stream is not
    empty and contains the word [error]; otherwise it succeeds and fires
    [Created].  A transport failure gives [Unavailable] with its message. *)
Theorem createDirectory_outcome st u sp :
  let name := fst (parseUri u) in
  let p := snd (parseUri u) in
  resolve st name = Some sp →
  (∀ reply w, exec sp (cmd_mkdir p) (remote st) = (inr reply, w) →
     let refused :=
       negb (Js.is_empty (stderr reply)) && Js.includes (stderr reply) "error" in
     ∃ st', createDirectory u st
            = (if refused then Throw (FsError (Unavailable (stderr reply))) else Ok tt, st')
            ∧ effects st st' [(name, cmd_mkdir p)] w
                (if refused then [] else [[ {| change := Created; uri := u |} ]]))
  ∧ (∀ message w, exec sp (cmd_mkdir p) (remote st) = (inl message, w) →
     ∃ st', createDirectory u st = (Throw (FsError (Unavailable message)), st')
            ∧ effects st st' [(name, cmd_mkdir p)] w []).
Proof.
  intros name p Hsp.
  destruct (getSprite_some _ _ _ Hsp) as (st1 & Hget & E1).
  unfold createDirectory. fold name p. change (parseUri u) with (name, p). cbv beta iota.
  rewrite (bind_ok _ _ _ _ _ Hget). split.
  - intros reply w Hexec. cbv zeta.
    rewrite <- (effects_remote _ _ _ _ _ E1) in Hexec.
    destruct (run_reply st1 name _ _ _ _ Hexec) as (st2 & Hrun & E2).
    pose proof (effects_trans _ _ _ _ _ _ _ _ _ E1 E2) as E12. simpl in E12.
    unfold try_catch. rewrite (bind_ok _ _ _ _ _ Hrun). unfold toStr.
    destruct (negb (Js.is_empty (stderr reply)) && Js.includes (stderr reply) "error").
    + exists st2. split; [reflexivity|exact E12].
    + destruct (fire_events st2 [ {| change := Created; uri := u |} ]) as (st3 & Hfire & E3).
      rewrite (effects_remote _ _ _ _ _ E2) in E3.
      exists st3. rewrite Hfire. split; [reflexivity|].
      exact (effects_trans _ _ _ _ _ _ _ _ _ E12 E3).
  - intros message w Hexec.
    rewrite <- (effects_remote _ _ _ _ _ E1) in Hexec.
    destruct (run_reply st1 name _ _ _ _ Hexec) as (st2 & Hrun & E2).
    exists st2. split; [|exact (effects_trans _ _ _ _ _ _ _ _ _ E1 E2)].
    unfold try_catch. by rewrite (bind_throw _ _ _ _ _ Hrun).
Qed.

Ltac step name Hexec E st2 Hrun E2 :=
  rewrite <- (effects_remote _ _ _ _ _ E) in Hexec;
  destruct (run_reply _ name _ _ _ _ Hexec) as (st2 & Hrun & E2).

(** X6.  [writeFile] for any options: when the path exists and [overwrite]
    is off the call fails with [FileExists], whatever [create] is; when the
    path does not exist and [create] is off it fails with [FileNotFound],
    whatever [overwrite] is.  Only the existence check is sent. *)
Theorem writeFile_options st u content options sp reply w :
  let name := fst (parseUri u) in
  let p := snd (parseUri u) in
  let exists_ := String.eqb (Js.trim (stdout reply)) "EXISTS" in
  resolve st name = Some sp →
  exec sp (cmd_exists_or_not p) (remote st) = (inr reply, w) →
  (exists_ = true → overwrite options = false →
     ∃ st', writeFile u content options st = (Throw (FsError (FileExists u)), st')
            ∧ effects st st' [(name, cmd_exists_or_not p)] w [])
  ∧ (exists_ = false → create options = false →
     ∃ st', writeFile u content options st = (Throw (FsError (FileNotFound u)), st')
            ∧ effects st st' [(name, cmd_exists_or_not p)] w []).
Proof.
  intros name p exists_ Hsp Hexec.
  destruct (getSprite_some _ _ _ Hsp) as (st1 & Hget & E1).
  step name Hexec E1 st2 Hrun E2.
  pose proof (effects_trans _ _ _ _ _ _ _ _ _ E1 E2) as E12. simpl in E12.
  unfold writeFile. fold name p. change (parseUri u) with (name, p). cbv beta iota.
  rewrite (bind_ok _ _ _ _ _ Hget).
  split; intros Hex Hopt; exists st2; (split; [|exact E12]).
  - rewrite (try_catch_throw _ _ _ (FsError (FileExists u)) st2); [reflexivity|].
    rewrite (bind_ok _ _ _ _ _ Hrun). cbv zeta. unfold toStr. fold exists_.
    by rewrite Hex, Hopt.
  - rewrite (try_catch_throw _ _ _ (FsError (FileNotFound u)) st2); [reflexivity|].
    rewrite (bind_ok _ _ _ _ _ Hrun). cbv zeta. unfold toStr. fold exists_.
    by rewrite Hex, Hopt.
Qed.

(** X7.  When the options allow the write, [writeFile] sends the existence
    check, the [mkdir -p] of the parent directory and the decode-and-redirect
    command, in this order, and fires [Changed] if the path existed and
    [Created] if not.  When the transport fails at the second or third
    command, the call fails with [Unavailable] carrying the message, nothing
    is fired, and the commands already sent are not undone. *)
Theorem writeFile_sequence st u content options sp reply w1 :
  let name := fst (parseUri u) in
  let p := snd (parseUri u) in
  let exists_ := String.eqb (Js.trim (stdout reply)) "EXISTS" in
  let check := (name, cmd_exists_or_not p) in
  let mkdir := (name, cmd_mkdir (parentDir p)) in
  let write := (name, cmd_write (to_base64 content) p) in
  resolve st name = Some sp →
  exec sp (cmd_exists_or_not p) (remote st) = (inr reply, w1) →
  (if exists_ then overwrite options else create options) = true →
  (∀ made w2 written w3,
     exec sp (snd mkdir) w1 = (inr made, w2) →
     exec sp (snd write) w2 = (inr written, w3) →
     ∃ st', writeFile u content options st = (Ok tt, st')
            ∧ effects st st' [check; mkdir; write] w3
                [[ {| change := if exists_ then Changed else Created; uri := u |} ]])
  ∧ (∀ message w2,
       exec sp (snd mkdir) w1 = (inl message, w2) →
       ∃ st', writeFile u content options st = (Throw (FsError (Unavailable message)), st')
              ∧ effects st st' [check; mkdir] w2 [])
  ∧ (∀ made w2 message w3,
       exec sp (snd mkdir) w1 = (inr made, w2) →
       exec sp (snd write) w2 = (inl message, w3) →
       ∃ st', writeFile u content options st = (Throw (FsError (Unavailable message)), st')
              ∧ effects st st' [check; mkdir; write] w3 []).
Proof.
  intros name p exists_ check mkdir write Hsp Hexec Hopt.
  destruct (getSprite_some _ _ _ Hsp) as (st1 & Hget & E1).
  step name Hexec E1 st2 Hrun E2.
  pose proof (effects_trans _ _ _ _ _ _ _ _ _ E1 E2) as E12. simpl in E12.
  assert (Hgo : ∀ A (x y z : A),
             (if exists_ && negb (overwrite options) then x
              else if negb exists_ && negb (create options) then y else z) = z).
  { intros A x y z. destruct exists_; simpl in *; by rewrite Hopt. }
  unfold writeFile. fold name p. change (parseUri u) with (name, p). cbv beta iota.
  rewrite (bind_ok _ _ _ _ _ Hget).
  split; [|split].
  - intros made w2 written w3 Hmk Hwr.
    step name Hmk E2 st3 Hrun3 E3. step name Hwr E3 st4 Hrun4 E4.
    destruct (fire_events st4 [ {| change := if exists_ then Changed else Created; uri := u |} ])
      as (st5 & Hfire & E5).
    rewrite (effects_remote _ _ _ _ _ E4) in E5.
    exists st5. split.
    + rewrite (try_catch_ok _ _ _ tt st5); [done|].
      rewrite (bind_ok _ _ _ _ _ Hrun). cbv zeta. unfold toStr. fold exists_.
      rewrite Hgo.
      by rewrite (bind_ok _ _ _ _ _ Hrun3), (bind_ok _ _ _ _ _ Hrun4).
    + exact (effects_trans _ _ _ _ _ _ _ _ _ E12
               (effects_trans _ _ _ _ _ _ _ _ _ E3
                  (effects_trans _ _ _ _ _ _ _ _ _ E4 E5))).
  - intros message w2 Hmk. step name Hmk E2 st3 Hrun3 E3.
    exists st3. split; [|exact (effects_trans _ _ _ _ _ _ _ _ _ E12 E3)].
    rewrite (try_catch_throw _ _ _ (JsError message) st3); [done|].
    rewrite (bind_ok _ _ _ _ _ Hrun). cbv zeta. unfold toStr. fold exists_.
    rewrite Hgo. by rewrite (bind_throw _ _ _ _ _ Hrun3).
  - intros made w2 message w3 Hmk Hwr.
    step name Hmk E2 st3 Hrun3 E3. step name Hwr E3 st4 Hrun4 E4.
    exists st4. split.
    + rewrite (try_catch_throw _ _ _ (JsError message) st4); [done|].
      rewrite (bind_ok _ _ _ _ _ Hrun). cbv zeta. unfold toStr. fold exists_.
      rewrite Hgo.
      by rewrite (bind_ok _ _ _ _ _ Hrun3), (bind_throw _ _ _ _ _ Hrun4).
    + exact (effects_trans _ _ _ _ _ _ _ _ _ E12 (effects_trans _ _ _ _ _ _ _ _ _ E3 E4)).
Qed.

(** X8.  [rename] within one target with [overwrite] set sends no existence
    check: the move is the only command.  When it returns, the call succeeds
    and fires [Deleted] for the old locator then [Created] for the new one;
    when the transport fails, the call fails with [Unavailable] and fires
    nothing. *)
Theorem rename_with_overwrite st oldUri newUri sp :
  let name := fst (parseUri oldUri) in
  let a := snd (parseUri oldUri) in
  let b := snd (parseUri newUri) in
  authority oldUri = authority newUri →
  resolve st name = Some sp →
  (∀ moved w, exec sp (cmd_mv a b) (remote st) = (inr moved, w) →
     ∃ st', rename oldUri newUri true st = (Ok tt, st')
            ∧ effects st st' [(name, cmd_mv a b)] w
                [[ {| change := Deleted; uri := oldUri |};
                   {| change := Created; uri := newUri |} ]])
  ∧ (∀ message w, exec sp (cmd_mv a b) (remote st) = (inl message, w) →
     ∃ st', rename oldUri newUri true st = (Throw (FsError (Unavailable message)), st')
            ∧ effects st st' [(name, cmd_mv a b)] w []).
Proof.
  intros name a b Hsame Hsp.
  destruct (getSprite_some _ _ _ Hsp) as (st1 & Hget & E1).
  unfold rename. fold name a b.
  change (parseUri oldUri) with (name, a).
  replace (parseUri newUri) with (name, b)
    by (unfold name, b, parseUri; simpl; by rewrite Hsame).
  cbv beta iota. rewrite String.eqb_refl. cbn [negb].
  rewrite (bind_ok _ _ _ _ _ Hget).
  split.
  - intros moved w Hmv. step name Hmv E1 st2 Hrun E2.
    destruct (fire_events st2 [ {| change := Deleted; uri := oldUri |};
                                {| change := Created; uri := newUri |} ])
      as (st3 & Hfire & E3).
    rewrite (effects_remote _ _ _ _ _ E2) in E3.
    exists st3. split.
    + rewrite (try_catch_ok _ _ _ tt st3); [done|].
      rewrite (bind_ok _ _ _ tt st1); [|done].
      by rewrite (bind_ok _ _ _ _ _ Hrun).
    + exact (effects_trans _ _ _ _ _ _ _ _ _ E1 (effects_trans _ _ _ _ _ _ _ _ _ E2 E3)).
  - intros message w Hmv. step name Hmv E1 st2 Hrun E2.
    exists st2. split; [|exact (effects_trans _ _ _ _ _ _ _ _ _ E1 E2)].
    rewrite (try_catch_throw _ _ _ (JsError message) st2); [done|].
    rewrite (bind_ok _ _ _ tt st1); [|done].
    by rewrite (bind_throw _ _ _ _ _ Hrun).
Qed.

(** X9.  [readFile] returns the bytes [b] whenever the output of the
    encoding command, once its white space is removed, is the base64 text of
    [b], for every non-empty [b]: line breaks and other white space in the
    output do not matter, and no second command is sent. *)
Theorem readFile_decodes st u sp reply w b :
  let name := fst (parseUri u) in
  let p := snd (parseUri u) in
  resolve st name = Some sp →
  exec sp (cmd_base64 p) (remote st) = (inr reply, w) →
  Js.strip_spaces (stdout reply) = to_base64 b →
  b ≠ [] →
  ∃ st', readFile u st = (Ok b, st') ∧ effects st st' [(name, cmd_base64 p)] w [].
Proof.
  intros name p Hsp Hexec Hout Hb.
  destruct (getSprite_some _ _ _ Hsp) as (st1 & Hget & E1).
  step name Hexec E1 st2 Hrun E2.
  exists st2. split; [|exact (effects_trans _ _ _ _ _ _ _ _ _ E1 E2)].
  unfold readFile. fold name p. change (parseUri u) with (name, p). cbv beta iota.
  rewrite (bind_ok _ _ _ _ _ Hget).
  apply try_catch_fs; [|done].
  rewrite (bind_ok _ _ _ _ _ Hrun). cbv zeta. unfold toStr. rewrite Hout.
  destruct (Js.is_empty (to_base64 b)) eqn:He.
  - by apply to_base64_empty in He.
  - pose proof (atob_to_base64 b) as Hd.
    destruct (Base64.atob (to_base64 b)) as [bin|]; [|done].
    simpl in Hd. by injection Hd as ->.
Qed.
End Outcomes.

Lemma digits_value_acc d (acc : positive) :
  Js.digits_value (Z.pos acc) (DecimalString.NilEmpty.string_of_uint d) = Z.pos (Pos.of_uint_acc d acc).
Proof.
  revert acc. induction d; intros acc; simpl; [reflexivity|..];
    unfold Js.is_digit; simpl; rewrite <- IHd; f_equal; lia.
Qed.

Lemma digits_value_uint d :
  Js.digits_value 0 (DecimalString.NilEmpty.string_of_uint d) = Z.of_N (Pos.of_uint d).
Proof.
  induction d; simpl; [reflexivity| |..]; unfold Js.is_digit; simpl;
    try exact IHd; apply (digits_value_acc d).
Qed.

Lemma parseInt_uint d :
  d ≠ Decimal.Nil →
  Js.parseInt (Some (DecimalString.NilEmpty.string_of_uint d))
  = Some (Js.to_number (Z.of_N (Pos.of_uint d))).
Proof.
  intros Hd. pose proof (digits_value_uint d) as Hv.
  destruct d; [done|..]; unfold Js.parseInt; simpl in *;
    unfold Js.is_digit in *; simpl in *; by rewrite Hv.
Qed.

Lemma to_uint_nonnil n : N.to_uint n ≠ Decimal.Nil.
Proof. destruct n; [done|]. apply DecimalPos.Unsigned.to_uint_nonnil. Qed.

Lemma parseInt_decimal n :
  Js.parseInt (Some (decimal n)) = Some (Js.to_number (Z.of_N n)).
Proof.
  unfold decimal. rewrite parseInt_uint by apply to_uint_nonnil.
  change (Pos.of_uint (N.to_uint n)) with (N.of_uint (N.to_uint n)).
  by rewrite DecimalN.Unsigned.of_to.
Qed.

(** Integers up to [Number.MAX_SAFE_INTEGER] are numbers as they are. *)
Lemma to_number_safe z :
  (0 ≤ z ≤ Js.MAX_SAFE_INTEGER)%Z → Js.to_number z = z.
Proof.
  intros [H0 H1]. unfold Js.to_number. cbv zeta.
  destruct (Z.log2 (Z.abs z) - 52 <=? 0)%Z eqn:E; [done|].
  apply Z.leb_gt in E. rewrite Z.abs_eq in E by done.
  assert (Hz : (0 < z)%Z).
  { destruct (Z.eq_dec z 0%Z) as [->|]; [simpl in E; lia|lia]. }
  assert (Hl : (Z.log2 z < 53)%Z).
  { apply Z.log2_lt_pow2; [done|]. unfold Js.MAX_SAFE_INTEGER in H1. lia. }
  lia.
Qed.

Lemma split_single_app sep a r :
  Js.split sep a = [a] → Js.split sep (a +:+ String sep r) = a :: Js.split sep r.
Proof.
  induction a as [|c a IH]; simpl.
  - intros _. by rewrite Ascii.eqb_refl.
  - destruct (Ascii.eqb c sep); [intros H; simplify_eq|].
    destruct (Js.split sep a) as [|h t] eqn:Hs; intros H; simplify_eq.
    by rewrite IH.
Qed.

Lemma split_uint d : Js.split "|" (DecimalString.NilEmpty.string_of_uint d) = [DecimalString.NilEmpty.string_of_uint d].
Proof. induction d; simpl; [done|..]; by rewrite IHd. Qed.

Lemma split_decimal n : Js.split "|" (decimal n) = [decimal n].
Proof. apply split_uint. Qed.

Section Stat.
Context {W : Type}.
Implicit Types (st : St W) (sp : Sprite W).

Lemma stat_ok st u sp reply w :
  let name := fst (parseUri u) in
  let p := snd (parseUri u) in
  let output := Js.trim (stdout reply) in
  resolve st name = Some sp →
  exec sp (cmd_stat p) (remote st) = (inr reply, w) →
  output ≠ "" → output ≠ "NOTFOUND" →
  ∃ st', stat u st = (Ok (parse_stat output (now st)), st')
         ∧ effects st st' [(name, cmd_stat p)] w [].
Proof.
  intros name p output Hsp Hexec H0 H1.
  destruct (getSprite_some _ _ _ Hsp) as (st1 & Hget & E1).
  rewrite <- (effects_remote _ _ _ _ _ E1) in Hexec.
  destruct (run_reply _ name _ _ _ _ Hexec) as (st2 & Hrun & E2).
  pose proof (effects_trans _ _ _ _ _ _ _ _ _ E1 E2) as E12. simpl in E12.
  exists st2. split; [|exact E12].
  unfold stat. fold name p. change (parseUri u) with (name, p). cbv beta iota.
  rewrite (bind_ok _ _ _ _ _ Hget).
  apply try_catch_fs; [|done].
  rewrite (bind_ok _ _ _ _ _ Hrun). cbv zeta. unfold toStr. fold output.
  apply String.eqb_neq in H1. apply is_empty_false in H0. rewrite H1, H0.
  cbn [orb]. unfold bind, date_now, ret.
  destruct E12 as (_ & _ & _ & _ & ->). reflexivity.
Qed.

(** X10.  For a reply of four fields [kind|size|mtime|atime] with decimal
    numerals, where the size and the two times in milliseconds do not
    exceed [Number.MAX_SAFE_INTEGER], [stat] returns the type read off
    [kind], the size as it is, and the two times multiplied by 1000; a time
    of zero is replaced by [Date.now()].  The fourth field, the access time,
    is what the result calls [ctime]. *)
Theorem stat_reports_metadata st u sp reply w kind (size_ mtime_ atime_ : N) :
  let name := fst (parseUri u) in
  let p := snd (parseUri u) in
  resolve st name = Some sp →
  exec sp (cmd_stat p) (remote st) = (inr reply, w) →
  Js.split "|" kind = [kind] →
  Js.trim (stdout reply)
  = kind +:+ "|" +:+ decimal size_ +:+ "|" +:+ decimal mtime_ +:+ "|" +:+ decimal atime_ →
  (Z.of_N size_ ≤ Js.MAX_SAFE_INTEGER)%Z →
  (1000 * Z.of_N mtime_ ≤ Js.MAX_SAFE_INTEGER)%Z →
  (1000 * Z.of_N atime_ ≤ Js.MAX_SAFE_INTEGER)%Z →
  ∃ st',
    stat u st
    = (Ok {| type := file_type_of kind;
             ctime := if (Z.of_N atime_ =? 0)%Z then now st else (1000 * Z.of_N atime_)%Z;
             mtime := if (Z.of_N mtime_ =? 0)%Z then now st else (1000 * Z.of_N mtime_)%Z;
             size := Z.of_N size_ |}, st')
    ∧ effects st st' [(name, cmd_stat p)] w [].
Proof.
  intros name p Hsp Hexec Hkind Hout Hsize Hmtime Hatime.
  assert (Hparts : Js.split "|" (Js.trim (stdout reply))
                   = [kind; decimal size_; decimal mtime_; decimal atime_]).
  { rewrite Hout.
    change (kind +:+ "|" +:+ decimal size_ +:+ "|" +:+ decimal mtime_ +:+ "|" +:+ decimal atime_)
      with (kind +:+ String "|" (decimal size_ +:+ String "|"
              (decimal mtime_ +:+ String "|" (decimal atime_)))).
    rewrite !split_single_app by (done || apply split_decimal).
    by rewrite split_decimal. }
  destruct (stat_ok st u sp reply w Hsp Hexec) as (st' & Hstat & E).
  - intros He. rewrite He in Hparts. discriminate Hparts.
  - intros He. rewrite He in Hparts. discriminate Hparts.
  - exists st'. split; [|exact E]. rewrite Hstat. do 2 f_equal.
    unfold parse_stat. rewrite Hparts. cbn [nth nth_error].
    rewrite !parseInt_decimal. cbn [option_map Js.num_or]. unfold Js.times.
    rewrite (to_number_safe (Z.of_N size_)), (to_number_safe (Z.of_N mtime_)),
      (to_number_safe (Z.of_N atime_)), !to_number_safe by lia.
    f_equal.
    + destruct atime_; [reflexivity|]. reflexivity.
    + destruct mtime_; [reflexivity|]. reflexivity.
    + by destruct size_.
Qed.

(** X11.  [stat] does not fail on a reply without delimiter: for any
    non-empty output other than the sentinel that has a single field, it
    returns the type read off the whole output, size [0] and [Date.now()] for
    both times. *)
Theorem stat_falls_back st u sp reply w :
  let name := fst (parseUri u) in
  let p := snd (parseUri u) in
  let output := Js.trim (stdout reply) in
  resolve st name = Some sp →
  exec sp (cmd_stat p) (remote st) = (inr reply, w) →
  output ≠ "" → output ≠ "NOTFOUND" →
  Js.split "|" output = [output] →
  ∃ st',
    stat u st
    = (Ok {| type := file_type_of output; ctime := now st; mtime := now st; size := 0 |}, st')
    ∧ effects st st' [(name, cmd_stat p)] w [].
Proof.
  intros name p output Hsp Hexec H0 H1 Hone.
  destruct (stat_ok st u sp reply w Hsp Hexec H0 H1) as (st' & Hstat & E).
  exists st'. split; [|exact E]. rewrite Hstat. do 2 f_equal.
  unfold parse_stat. fold output. by rewrite Hone.
Qed.
End Stat.

Lemma listing_step_entry line :
  Forall (λ e, fst e ≠ "" ∧ fst e ≠ "." ∧ fst e ≠ ".." ∧ snd e ≠ Unknown)
    (listing_step [] line).
Proof.
  unfold listing_step.
  repeat case_match; simplify_eq/=; try constructor; try constructor; simpl;
    repeat match goal with
           | H : _ && _ = true |- _ => apply andb_true_iff in H as [? ?]
           | H : negb _ = true |- _ => apply negb_true_iff in H
           | H : Js.is_empty _ = false |- _ => apply is_empty_false in H
           | H : String.eqb _ _ = false |- _ => apply String.eqb_neq in H
           end; repeat split; done.
Qed.

(** X12.  Whatever the output, the entries [readDirectory] builds have a
    name that is not empty, not [.] and not [..], a kind that is never
    [Unknown], and there is at most one entry per line. *)
Theorem listing_entries_are_proper output :
  Forall (λ e, fst e ≠ "" ∧ fst e ≠ "." ∧ fst e ≠ ".." ∧ snd e ≠ Unknown)
    (parse_listing output)
  ∧ (length (parse_listing output) ≤ length (Js.split Js.newline output))%nat.
Proof.
  rewrite parse_listing_lines. split.
  - apply Forall_concat, Forall_map, Forall_forall. intros line _.
    apply listing_step_entry.
  - induction (Js.split Js.newline output) as [|l ls IH]; [done|].
    cbn [map concat]. rewrite length_app. cbn [length].
    assert (length (listing_step [] l) ≤ 1)%nat; [|lia].
    unfold listing_step. repeat case_match; simpl; lia.
Qed.

(** X13.  The parent directory [writeFile] creates: for a path made of a
    directory, a slash and a name without slash it is that directory, or the
    root when the directory part is empty; for a path without any slash it is
    the root. *)
Theorem parentDir_of_child dir name :
  Js.lastIndexOf name "/" = (-1)%Z →
  parentDir (dir +:+ "/" +:+ name) = (if Js.is_empty dir then "/" else dir)
  ∧ parentDir name = "/".
Proof.
  intros Hn. unfold parentDir, Js.substring0. split.
  - change (dir +:+ "/" +:+ name) with (dir +:+ String "/" name).
    rewrite lastIndexOf_app_sep by done. rewrite Nat2Z.id, substring_prefix.
    unfold Js.str_or. by destruct dir.
  - rewrite Hn. by destruct name.
Qed.

Lemma length_sextets l :
  length (Base64.sextets l) = (length l / 3 * 4 + match length l mod 3 with 0 => 0 | 1 => 2 | _ => 3 end)%nat.
Proof.
  induction l as [|a|a b|a b c r IH] using list_ind3; try reflexivity.
  cbn [Base64.sextets length]. rewrite IH.
  replace (S (S (S (length r)))) with (length r + 1 * 3)%nat by lia.
  rewrite Nat.div_add, Nat.Div0.mod_add by lia. lia.
Qed.

(** X14.  The text [writeFile] embeds in its command: its length is four
    characters for every started group of three bytes, it holds no white
    space and none of the characters that are special inside double quotes,
    and decoding it as [readFile] does gives back the content. *)
Theorem base64_text_shape content :
  String.length (to_base64 content) = (4 * ((length content + 2) / 3))%nat
  ∧ Forall (λ c, Js.is_space c = false ∧ Shell.is_special c = false)
      (list_ascii_of_string (to_base64 content))
  ∧ bytes_of_binary <$> Base64.atob (to_base64 content) = Some content.
Proof.
  split; [|split].
  - unfold to_base64, Base64.encode.
    set (l := map ascii_of_byte content).
    replace (length content) with (length l) by apply length_map.
    assert (Hlen : ∀ s, String.length s = length (list_ascii_of_string s)).
    { induction s; simpl; congruence. }
    rewrite Hlen, list_ascii_of_append, list_ascii_of_string_of_list_ascii,
      length_app, length_map, length_sextets.
    unfold Base64.padding.
    pose proof (Nat.div_mod_eq (length l) 3) as Hd.
    pose proof (Nat.mod_upper_bound (length l) 3 ltac:(lia)) as Hb.
    destruct (length l mod 3) as [|[|[|k]]] eqn:Hm; simpl length; euclid.
  - unfold to_base64.
    destruct (encode_chars (map ascii_of_byte content)) as (sx & tail & -> & Ht).
    apply Forall_app. split.
    + apply Forall_map, Forall_forall. intros s _.
      destruct (char_of_class s) as (? & _ & ? & _). done.
    + destruct Ht as [-> | [-> | ->]]; repeat constructor.
  - apply atob_to_base64.
Qed.


Lemma delete_model (st : St (gmap string (gmap string Remote.node))) u (recursive : bool) :
  let name := fst (parseUri u) in
  let p := snd (parseUri u) in
  let fs := Remote.files (remote st) name in
  Remote.attached st →
  Shell.plain p = true →
  ∃ st', delete u recursive st = (Ok tt, st')
         ∧ Remote.attached st'
         ∧ Remote.files (remote st') name = snd (Remote.eval (Remote.Rm recursive p) fs)
         ∧ (∀ n, n ≠ name → Remote.files (remote st') n = Remote.files (remote st) n)
         ∧ emitted st' = emitted st ++ [[ {| change := Deleted; uri := u |} ]].
Proof.
  intros name p fs Hatt Hp.
  destruct (getSprite_some _ _ _ (Hatt name)) as (st1 & Hget & E1).
  assert (F1 : ∀ n, Remote.files (remote st1) n = Remote.files (remote st) n)
    by (intros n; by rewrite (effects_remote _ _ _ _ _ E1)).
  destruct (model_run st1 name _ _ (recognise_rm recursive p Hp)) as (st2 & Hrun2 & E2).
  destruct (files_after _ _ _ _ _ _ E2) as [F2 F2'].
  rewrite (F1 name) in F2.
  destruct (fire_events st2 [ {| change := Deleted; uri := u |} ]) as (st3 & Hfire & E3).
  exists st3. split; [|split; [|split; [|split]]].
  - unfold delete. fold name p. change (parseUri u) with (name, p). cbv beta iota zeta.
    rewrite (bind_ok _ _ _ _ _ Hget).
    rewrite (try_catch_ok _ _ _ tt st3); [done|].
    by rewrite (bind_ok _ _ _ _ _ Hrun2).
  - pose proof (attached_effects _ _ _ _ _ Hatt E1) as A1.
    pose proof (attached_effects _ _ _ _ _ A1 E2) as A2.
    exact (attached_effects _ _ _ _ _ A2 E3).
  - by rewrite (effects_remote _ _ _ _ _ E3).
  - intros n Hn. rewrite (effects_remote _ _ _ _ _ E3). by rewrite F2', F1.
  - destruct E3 as (_ & _ & -> & _). destruct E2 as (_ & _ & -> & _).
    destruct E1 as (_ & _ & -> & _). by rewrite !app_nil_r.
Qed.

Lemma createDirectory_model (st : St (gmap string (gmap string Remote.node))) u :
  let name := fst (parseUri u) in
  let p := snd (parseUri u) in
  let fs := Remote.files (remote st) name in
  Remote.attached st →
  Shell.plain p = true →
  Remote.creatable fs p = true →
  ∃ st', createDirectory u st = (Ok tt, st')
         ∧ Remote.attached st'
         ∧ Remote.files (remote st') name
           = Remote.make_dirs (Remote.ancestors p ++ [p]) fs
         ∧ (∀ n, n ≠ name → Remote.files (remote st') n = Remote.files (remote st) n)
         ∧ emitted st' = emitted st ++ [[ {| change := Created; uri := u |} ]].
Proof.
  intros name p fs Hatt Hp Hc.
  destruct (getSprite_some _ _ _ (Hatt name)) as (st1 & Hget & E1).
  assert (F1 : ∀ n, Remote.files (remote st1) n = Remote.files (remote st) n)
    by (intros n; by rewrite (effects_remote _ _ _ _ _ E1)).
  destruct (model_run st1 name _ _ (recognise_mkdir p Hp)) as (st2 & Hrun2 & E2).
  destruct (files_after _ _ _ _ _ _ E2) as [F2 F2'].
  rewrite (F1 name) in F2, Hrun2. fold fs in F2, Hrun2.
  assert (Hev : Remote.eval (Remote.MkdirP p) fs
                = (Remote.out "", Remote.make_dirs (Remote.ancestors p ++ [p]) fs)).
  { simpl. by rewrite Hc. }
  rewrite Hev in F2, Hrun2. cbn [fst snd] in F2, Hrun2.
  destruct (fire_events st2 [ {| change := Created; uri := u |} ]) as (st3 & Hfire & E3).
  exists st3. split; [|split; [|split; [|split]]].
  - unfold createDirectory. fold name p. change (parseUri u) with (name, p). cbv beta iota.
    rewrite (bind_ok _ _ _ _ _ Hget).
    rewrite (try_catch_ok _ _ _ tt st3); [done|].
    by rewrite (bind_ok _ _ _ _ _ Hrun2).
  - pose proof (attached_effects _ _ _ _ _ Hatt E1) as A1.
    pose proof (attached_effects _ _ _ _ _ A1 E2) as A2.
    exact (attached_effects _ _ _ _ _ A2 E3).
  - by rewrite (effects_remote _ _ _ _ _ E3).
  - intros n Hn. rewrite (effects_remote _ _ _ _ _ E3). by rewrite F2', F1.
  - destruct E3 as (_ & _ & -> & _). destruct E2 as (_ & _ & -> & _).
    destruct E1 as (_ & _ & -> & _). by rewrite !app_nil_r.
Qed.

Lemma writable_after_write fs p b :
  Remote.writable fs p = true →
  Remote.writable (<[p := Remote.RFile b]> (Remote.make_dirs (Remote.ancestors p) fs)) p
  = true.
Proof.
  intros (Hc & Hne & Hnd & Hanc)%writable_parts. apply writable_parts.
  split; [done|]. split; [done|]. split.
  - unfold Remote.is_dir. by rewrite lookup_insert_eq.
  - intros a Ha. unfold Remote.is_file.
    rewrite lookup_insert_ne by (intros ->; by apply (not_own_ancestor a)).
    by rewrite lookup_make_dirs_in.
Qed.

Lemma parent_is_ancestor p :
  Remote.canonical p = true → p ≠ "/" → parentDir p ∈ Remote.ancestors p.
Proof.
  intros Hc Hne. rewrite <- ancestors_parent by done. apply elem_of_app. right. by left.
Qed.

(** X15.  On the model of the remote side, an allowed [writeFile] to a plain
    path at which a regular file can be put succeeds: afterwards the path
    holds the content, its parent and all its ancestors are directories,
    every other normal-form path of the target and every other target are
    as before, and one event was fired, [Changed] if the path existed and
    [Created] if not. *)
Theorem writeFile_on_model (st : St (gmap string (gmap string Remote.node))) u b options :
  let name := fst (parseUri u) in
  let p := snd (parseUri u) in
  let fs := Remote.files (remote st) name in
  Remote.attached st →
  Shell.plain p = true →
  Remote.writable fs p = true →
  (if fs !! p is Some _ then overwrite options else create options) = true →
  ∃ st', writeFile u b options st = (Ok tt, st')
         ∧ Remote.files (remote st') name !! p = Some (Remote.RFile b)
         ∧ Remote.files (remote st') name !! parentDir p = Some Remote.RDir
         ∧ (∀ a, a ∈ Remote.ancestors p →
              Remote.files (remote st') name !! a = Some Remote.RDir)
         ∧ (∀ k, Remote.canonical k = true → k ≠ p → k ∉ Remote.ancestors p →
              Remote.files (remote st') name !! k = fs !! k)
         ∧ (∀ n, n ≠ name → Remote.files (remote st') n = Remote.files (remote st) n)
         ∧ emitted st'
           = emitted st ++ [[ {| change := if fs !! p is Some _ then Changed else Created;
                                 uri := u |} ]].
Proof.
  intros name p fs Hatt Hp Hw Hopt.
  destruct (writeFile_model_detail st u b options Hatt Hp Hw Hopt)
    as (st' & Hcall & _ & Hfiles & Hothers & Hev).
  apply writable_parts in Hw as (Hc & Hne & _).
  assert (Hanc : ∀ a, a ∈ Remote.ancestors p →
            <[p := Remote.RFile b]> (Remote.make_dirs (Remote.ancestors p) fs) !! a
            = Some Remote.RDir).
  { intros a Ha. rewrite lookup_insert_ne by (intros ->; by apply (not_own_ancestor a)).
    by apply lookup_make_dirs_in. }
  exists st'. fold name p fs in Hfiles, Hev |- *. rewrite Hfiles.
  split; [done|]. split; [by rewrite lookup_insert_eq|].
  split; [by apply Hanc, parent_is_ancestor|]. split; [done|]. split; [|done].
  intros k _ Hk Hk'. rewrite lookup_insert_ne by done. by apply lookup_make_dirs_notin.
Qed.

(** X16.  On the model of the remote side, two writes to the same path
    followed by a read return the content of the second write. *)
Theorem last_write_wins (st : St (gmap string (gmap string Remote.node))) u b1 b2 :
  let name := fst (parseUri u) in
  let p := snd (parseUri u) in
  let always := {| create := true; overwrite := true |} in
  Remote.attached st →
  Shell.plain p = true →
  Remote.writable (Remote.files (remote st) name) p = true →
  ∃ st1 st2 st3,
    writeFile u b1 always st = (Ok tt, st1)
    ∧ writeFile u b2 always st1 = (Ok tt, st2)
    ∧ readFile u st2 = (Ok b2, st3).
Proof.
  intros name p always Hatt Hp Hw.
  assert (Hany : ∀ o : option Remote.node,
            (if o is Some _ then overwrite always else create always) = true)
    by (by intros []).
  destruct (writeFile_model_detail st u b1 always Hatt Hp Hw (Hany _))
    as (st1 & Hcall1 & Hatt1 & Hfiles1 & _).
  assert (Hw1 : Remote.writable (Remote.files (remote st1) name) p = true).
  { fold name p in Hfiles1. rewrite Hfiles1. by apply writable_after_write. }
  destruct (writeFile_model_detail st1 u b2 always Hatt1 Hp Hw1 (Hany _))
    as (st2 & Hcall2 & Hatt2 & Hfiles2 & _).
  assert (Hfile : Remote.files (remote st2) name !! p = Some (Remote.RFile b2)).
  { fold name p in Hfiles2. rewrite Hfiles2. by rewrite lookup_insert_eq. }
  destruct (readFile_model st2 u b2 Hatt2 Hp Hfile) as (st3 & Hread).
  by exists st1, st2, st3.
Qed.



(** X19.  On the model of the remote side, [delete] of a plain path in
    normal form: when
    the path does not exist the call succeeds and nothing changes; when it is
    a regular file exactly that path is removed; when it is a directory
    other than the root and [recursive] is set, exactly the path and
    everything below it are removed; when it is a directory and [recursive]
    is not set, the call succeeds all the same and nothing changes. *)
Theorem delete_on_model (st : St (gmap string (gmap string Remote.node))) u :
  let name := fst (parseUri u) in
  let p := snd (parseUri u) in
  let fs := Remote.files (remote st) name in
  Remote.attached st →
  Shell.plain p = true →
  Remote.canonical p = true →
  (fs !! p = None →
     ∀ recursive, ∃ st', delete u recursive st = (Ok tt, st')
                         ∧ Remote.files (remote st') name = fs)
  ∧ (∀ c, fs !! p = Some (Remote.RFile c) →
     ∀ recursive, ∃ st', delete u recursive st = (Ok tt, st')
                         ∧ Remote.files (remote st') name = base.delete p fs)
  ∧ (fs !! p = Some Remote.RDir → p ≠ "/" →
     ∃ st', delete u true st = (Ok tt, st')
            ∧ ∀ k, Remote.files (remote st') name !! k
                   = if Remote.below p k then None else fs !! k)
  ∧ (fs !! p = Some Remote.RDir →
     ∃ st', delete u false st = (Ok tt, st')
            ∧ Remote.files (remote st') name = fs).
Proof.
  intros name p fs Hatt Hp _. split; [|split; [|split]].
  - intros Hfs recursive.
    destruct (delete_model st u recursive Hatt Hp) as (st' & Hcall & _ & Hfiles & _).
    exists st'. split; [done|]. fold name p fs in Hfiles. rewrite Hfiles. simpl.
    by rewrite Hfs.
  - intros c Hfs recursive.
    destruct (delete_model st u recursive Hatt Hp) as (st' & Hcall & _ & Hfiles & _).
    exists st'. split; [done|]. fold name p fs in Hfiles. rewrite Hfiles. simpl.
    by rewrite Hfs.
  - intros Hfs Hne.
    destruct (delete_model st u true Hatt Hp) as (st' & Hcall & _ & Hfiles & _).
    exists st'. split; [done|]. fold name p fs in Hfiles. rewrite Hfiles. simpl.
    rewrite Hfs. apply eqb_root in Hne. rewrite Hne. simpl.
    intros k. rewrite map_lookup_filter.
    destruct (fs !! k) as [x|]; simpl; [|by destruct (Remote.below p k)].
    destruct (Remote.below p k); case_guard; done.
  - intros Hfs.
    destruct (delete_model st u false Hatt Hp) as (st' & Hcall & _ & Hfiles & _).
    exists st'. split; [done|]. fold name p fs in Hfiles. rewrite Hfiles. simpl.
    by rewrite Hfs.
Qed.

(** X20.  On the model of the remote side, at a plain path in normal form
    that [mkdir -p] can make (neither the path nor an ancestor of it is a regular file),
    [createDirectory] twice in a row succeeds both times; after the first
    call the path and all its ancestors are directories and every other path
    is as before, and the second call leaves every target as the first left
    it. *)
Theorem createDirectory_is_idempotent (st : St (gmap string (gmap string Remote.node))) u :
  let name := fst (parseUri u) in
  let p := snd (parseUri u) in
  let fs := Remote.files (remote st) name in
  Remote.attached st →
  Shell.plain p = true →
  Remote.canonical p = true →
  Remote.creatable fs p = true →
  ∃ st1 st2,
    createDirectory u st = (Ok tt, st1)
    ∧ createDirectory u st1 = (Ok tt, st2)
    ∧ Remote.files (remote st1) name !! p = Some Remote.RDir
    ∧ (∀ a, a ∈ Remote.ancestors p → Remote.files (remote st1) name !! a = Some Remote.RDir)
    ∧ (∀ k, Remote.canonical k = true → k ≠ p → k ∉ Remote.ancestors p →
         Remote.files (remote st1) name !! k = fs !! k)
    ∧ (∀ n, Remote.files (remote st2) n = Remote.files (remote st1) n).
Proof.
  intros name p fs Hatt Hp _ Hc.
  destruct (createDirectory_model st u Hatt Hp Hc) as (st1 & Hcall1 & Hatt1 & Hfiles1 & _).
  fold name p fs in Hfiles1.
  assert (Hdirs : ∀ a, a ∈ Remote.ancestors p ++ [p] →
            Remote.files (remote st1) name !! a = Some Remote.RDir).
  { intros a Ha. rewrite Hfiles1. by apply lookup_make_dirs_in. }
  assert (Hc1 : Remote.creatable (Remote.files (remote st1) name) p = true).
  { unfold Remote.creatable. apply negb_true_iff, existsb_false_elem.
    intros a Ha. unfold Remote.is_file. by rewrite (Hdirs a Ha). }
  destruct (createDirectory_model st1 u Hatt1 Hp Hc1) as (st2 & Hcall2 & _ & Hfiles2 & Hoth).
  fold name p in Hfiles2.
  exists st1, st2. split; [done|]. split; [done|]. split; [|split; [|split]].
  - apply Hdirs, elem_of_app. right. by left.
  - intros a Ha. apply Hdirs, elem_of_app. by left.
  - intros k _ Hk Hk'. rewrite Hfiles1. apply lookup_make_dirs_notin.
    intros [?|[?|[]%elem_of_nil]%elem_of_cons]%elem_of_app; done.
  - intros n. destruct (decide (n = name)) as [->|Hn]; [|by apply Hoth].
    rewrite Hfiles2. by apply make_dirs_again.
Qed.

(** ** The further properties at sample inputs *)

Lemma operations_need_a_client_witness :
  readFile Sample.file_uri (fresh Sample.root_only 0)
  = (Throw (FsError (Unavailable "Not connected to Sprites API")), fresh Sample.root_only 0).
Proof.
  apply (proj1 (proj2 (proj2 (operations_need_a_client (fresh Sample.root_only 0)
           Sample.file_uri Sample.hello {| create := true; overwrite := true |}
           true true Sample.moved_uri eq_refl)))).
Defined.

Lemma handles_are_cached_witness :
  ∃ st1, getSprite "box1" (Scripted.bound []) = (Ok Scripted.handle, st1)
         ∧ spriteCache st1 !! "box1" = Some Scripted.handle
         ∧ getSprite "box1" st1 = (Ok Scripted.handle, st1).
Proof.
  eexists. split; [reflexivity|].
  apply (proj1 (handles_are_cached (Scripted.bound []) "box1")). reflexivity.
Defined.

Lemma error_taxonomy_witness :
  FsError (FileNotFound Sample.file_uri) = FsError (FileNotFound Sample.file_uri)
  ∨ ∃ m, FsError (FileNotFound Sample.file_uri) = FsError (Unavailable m).
Proof.
  apply (proj1 (error_taxonomy (Scripted.bound [Scripted.says (Remote.line "NOTFOUND")])
           Sample.file_uri Sample.hello {| create := true; overwrite := true |}
           true true Sample.moved_uri (FsError (FileNotFound Sample.file_uri)))).
  reflexivity.
Defined.

Lemma createDirectory_outcome_witness :
  (∃ st', createDirectory Sample.dir_uri (Scripted.bound [Scripted.says ""]) = (Ok tt, st')
          ∧ effects (Scripted.bound [Scripted.says ""]) st'
              [("box1", cmd_mkdir "/d")] []
              [[ {| change := Created; uri := Sample.dir_uri |} ]])
  ∧ (∃ st', createDirectory Sample.dir_uri
              (Scripted.bound [inr {| stdout := ""; stderr := "error: read-only" |}])
            = (Throw (FsError (Unavailable "error: read-only")), st')
          ∧ effects (Scripted.bound [inr {| stdout := ""; stderr := "error: read-only" |}]) st'
              [("box1", cmd_mkdir "/d")] [] []).
Proof.
  split.
  - apply (proj1 (createDirectory_outcome (Scripted.bound [Scripted.says ""])
             Sample.dir_uri Scripted.handle eq_refl)
             {| stdout := ""; stderr := "" |} [] eq_refl).
  - apply (proj1 (createDirectory_outcome
             (Scripted.bound [inr {| stdout := ""; stderr := "error: read-only" |}])
             Sample.dir_uri Scripted.handle eq_refl)
             {| stdout := ""; stderr := "error: read-only" |} [] eq_refl).
Defined.

Lemma writeFile_options_witness :
  ∃ st', writeFile Sample.file_uri Sample.hello {| create := true; overwrite := false |}
           (Scripted.bound [Scripted.says (Remote.line "EXISTS")])
         = (Throw (FsError (FileExists Sample.file_uri)), st')
         ∧ effects (Scripted.bound [Scripted.says (Remote.line "EXISTS")]) st'
             [("box1", cmd_exists_or_not "/tmp/demo/a.txt")] [] [].
Proof.
  apply (proj1 (writeFile_options (Scripted.bound [Scripted.says (Remote.line "EXISTS")])
           Sample.file_uri Sample.hello {| create := true; overwrite := false |}
           Scripted.handle {| stdout := Remote.line "EXISTS"; stderr := "" |} []
           eq_refl eq_refl)); reflexivity.
Defined.

Lemma writeFile_sequence_witness :
  ∃ st', writeFile Sample.file_uri Sample.hello {| create := true; overwrite := false |}
           (Scripted.bound [Scripted.says (Remote.line "NOTEXISTS"); Scripted.says "";
                            Scripted.says ""])
         = (Ok tt, st')
         ∧ effects (Scripted.bound [Scripted.says (Remote.line "NOTEXISTS"); Scripted.says "";
                                    Scripted.says ""]) st'
             [("box1", cmd_exists_or_not "/tmp/demo/a.txt");
              ("box1", cmd_mkdir "/tmp/demo");
              ("box1", cmd_write "aGUAbG8=" "/tmp/demo/a.txt")] []
             [[ {| change := Created; uri := Sample.file_uri |} ]].
Proof.
  apply (proj1 (writeFile_sequence
           (Scripted.bound [Scripted.says (Remote.line "NOTEXISTS"); Scripted.says "";
                            Scripted.says ""])
           Sample.file_uri Sample.hello {| create := true; overwrite := false |}
           Scripted.handle {| stdout := Remote.line "NOTEXISTS"; stderr := "" |}
           [Scripted.says ""; Scripted.says ""] eq_refl eq_refl eq_refl)
           {| stdout := ""; stderr := "" |} [Scripted.says ""]
           {| stdout := ""; stderr := "" |} []); reflexivity.
Defined.

Lemma rename_with_overwrite_witness :
  ∃ st', rename Sample.file_uri Sample.moved_uri true (Scripted.bound [Scripted.says ""])
         = (Ok tt, st')
         ∧ effects (Scripted.bound [Scripted.says ""]) st'
             [("box1", cmd_mv "/tmp/demo/a.txt" "/tmp/demo/b.txt")] []
             [[ {| change := Deleted; uri := Sample.file_uri |};
                {| change := Created; uri := Sample.moved_uri |} ]].
Proof.
  apply (proj1 (rename_with_overwrite (Scripted.bound [Scripted.says ""])
           Sample.file_uri Sample.moved_uri Scripted.handle eq_refl eq_refl)
           {| stdout := ""; stderr := "" |} []); reflexivity.
Defined.

Lemma readFile_decodes_witness :
  ∃ st', readFile Sample.file_uri
           (Scripted.bound [Scripted.says (Remote.line "aGUA" +:+ Remote.line "bG8=")])
         = (Ok Sample.hello, st')
         ∧ effects (Scripted.bound [Scripted.says (Remote.line "aGUA" +:+ Remote.line "bG8=")])
             st' [("box1", cmd_base64 "/tmp/demo/a.txt")] [] [].
Proof.
  apply (readFile_decodes
           (Scripted.bound [Scripted.says (Remote.line "aGUA" +:+ Remote.line "bG8=")])
           Sample.file_uri Scripted.handle
           {| stdout := Remote.line "aGUA" +:+ Remote.line "bG8="; stderr := "" |} []
           Sample.hello); [reflexivity|reflexivity|reflexivity|discriminate].
Defined.

Lemma stat_reports_metadata_witness :
  ∃ st', stat Sample.file_uri
           (Scripted.bound [Scripted.says (Remote.line "regular file|5|1600000000|0")])
         = (Ok {| type := File; ctime := 1700000000000; mtime := 1600000000000;
                  size := 5 |}, st')
         ∧ effects (Scripted.bound [Scripted.says (Remote.line "regular file|5|1600000000|0")])
             st' [("box1", cmd_stat "/tmp/demo/a.txt")] [] [].
Proof.
  apply (stat_reports_metadata
           (Scripted.bound [Scripted.says (Remote.line "regular file|5|1600000000|0")])
           Sample.file_uri Scripted.handle
           {| stdout := Remote.line "regular file|5|1600000000|0"; stderr := "" |} []
           "regular file" 5 1600000000 0); first [reflexivity | by vm_compute].
Defined.

Lemma stat_falls_back_witness :
  ∃ st', stat Sample.dir_uri (Scripted.bound [Scripted.says (Remote.line "directory")])
         = (Ok {| type := Directory; ctime := 1700000000000; mtime := 1700000000000;
                  size := 0 |}, st')
         ∧ effects (Scripted.bound [Scripted.says (Remote.line "directory")]) st'
             [("box1", cmd_stat "/d")] [] [].
Proof.
  apply (stat_falls_back (Scripted.bound [Scripted.says (Remote.line "directory")])
           Sample.dir_uri Scripted.handle
           {| stdout := Remote.line "directory"; stderr := "" |} []);
    first [reflexivity | discriminate].
Defined.

Lemma parentDir_of_child_witness :
  parentDir "/tmp/demo/a.txt" = "/tmp/demo" ∧ parentDir "a.txt" = "/".
Proof. apply (parentDir_of_child "/tmp/demo" "a.txt"). reflexivity. Defined.

Lemma writeFile_on_model_witness :
  ∃ st', writeFile Sample.file_uri Sample.hello {| create := true; overwrite := false |}
           (Remote.bound Sample.root_only) = (Ok tt, st')
         ∧ Remote.files (remote st') "box1" !! "/tmp/demo/a.txt"
           = Some (Remote.RFile Sample.hello)
         ∧ Remote.files (remote st') "box1" !! "/tmp/demo" = Some Remote.RDir
         ∧ emitted st' = [[ {| change := Created; uri := Sample.file_uri |} ]].
Proof.
  destruct (writeFile_on_model (Remote.bound Sample.root_only) Sample.file_uri Sample.hello
              {| create := true; overwrite := false |})
    as (st' & Hcall & Hfile & Hdir & _ & _ & _ & Hev).
  - intros n. reflexivity.
  - reflexivity.
  - vm_compute. reflexivity.
  - reflexivity.
  - exists st'. repeat split; assumption.
Defined.

Lemma last_write_wins_witness :
  ∃ st1 st2 st3,
    writeFile Sample.file_uri [Byte.x61] {| create := true; overwrite := true |}
      (Remote.bound Sample.root_only) = (Ok tt, st1)
    ∧ writeFile Sample.file_uri Sample.hello {| create := true; overwrite := true |} st1
      = (Ok tt, st2)
    ∧ readFile Sample.file_uri st2 = (Ok Sample.hello, st3).
Proof.
  apply (last_write_wins (Remote.bound Sample.root_only) Sample.file_uri
           [Byte.x61] Sample.hello).
  - intros n. reflexivity.
  - reflexivity.
  - vm_compute. reflexivity.
Defined.



Lemma delete_on_model_witness :
  ∃ st', delete Sample.dir_uri true (Remote.bound Sample.with_dir) = (Ok tt, st')
         ∧ ∀ k, Remote.files (remote st') "box1" !! k
                = if Remote.below "/d" k then None
                  else Remote.files Sample.with_dir "box1" !! k.
Proof.
  apply (proj1 (proj2 (proj2 (delete_on_model (Remote.bound Sample.with_dir) Sample.dir_uri
                         (fun n => eq_refl) eq_refl eq_refl)))).
  - reflexivity.
  - discriminate.
Defined.

Lemma createDirectory_is_idempotent_witness :
  ∃ st1 st2,
    createDirectory Sample.dir_uri (Remote.bound Sample.root_only) = (Ok tt, st1)
    ∧ createDirectory Sample.dir_uri st1 = (Ok tt, st2)
    ∧ Remote.files (remote st1) "box1" !! "/d" = Some Remote.RDir
    ∧ (∀ n, Remote.files (remote st2) n = Remote.files (remote st1) n).
Proof.
  destruct (createDirectory_is_idempotent (Remote.bound Sample.root_only) Sample.dir_uri)
    as (st1 & st2 & H1 & H2 & Hd & _ & _ & Hsame).
  - intros n. reflexivity.
  - reflexivity.
  - reflexivity.
  - vm_compute. reflexivity.
  - by exists st1, st2.
Defined.
